(** * research-report-skill: the markdown-to-HTML engine of [scripts/generate_pdf.py]

    A shallow embedding of [generate_toc], [markdown_to_html],
    [markdown_to_html_internal] and the figure sections of
    [generate_html_report], with the properties the specification states
    about them; then the functions that call the file system again
    with the errors of the calls, and the parts of
    [scripts/fetch_images.py] and [scripts/create_diagram.py] that
    compute names and layouts.

    Python strings are sequences of Unicode code points: [pystr] is
    [list Z].  The regular expressions of the source are kept as data
    ([re]) and run by a backtracking matcher with the priorities of
    Python's [re] module (greedy and lazy repetition, ordered
    alternation, leftmost match). *)

From Stdlib Require Import ZArith List Ascii String Bool Lia.
From Stdlib Require DecimalNat.
From stdpp Require Import base option list countable gmap.

Import ListNotations.
Local Open Scope list_scope.

(** ** Strings *)

Definition pystr := list Z.

Definition code (a : ascii) : Z := Z.of_N (N_of_ascii a).

(** [raw s] is the text of the literal [s], character by character. *)
Definition raw (s : string) : pystr := map code (list_ascii_of_string s).

Fixpoint unescape (s : pystr) : pystr :=
  match s with
  | 92%Z :: 110%Z :: s' => 10%Z :: unescape s'
  | 39%Z :: s' => 34%Z :: unescape s'
  | c :: s' => c :: unescape s'
  | [] => []
  end.

(** [str s] reads [s] as the source's literals are written: the two
    characters backslash-n stand for a line feed, and an apostrophe
    stands for the double quote (no literal of the source holds an
    apostrophe of its own). *)
Definition str (s : string) : pystr := unescape (raw s).

Definition nl : Z := 10%Z.

Definition str_eqb (a b : pystr) : bool := bool_decide (a = b).

(** [s.startswith(p)] *)
Fixpoint startswith (p s : pystr) : bool :=
  match p, s with
  | [], _ => true
  | a :: p', b :: s' => (a =? b)%Z && startswith p' s'
  | _ :: _, [] => false
  end.

(** [s.endswith(p)] *)
Definition endswith (p s : pystr) : bool := startswith (rev p) (rev s).

(** [sep.join(l)] *)
Fixpoint join (sep : pystr) (l : list pystr) : pystr :=
  match l with
  | [] => []
  | [x] => x
  | x :: l' => x ++ sep ++ join sep l'
  end.

(** [s.split(c)] for a separator of one character. *)
Fixpoint split_chr (c : Z) (s : pystr) : list pystr :=
  match s with
  | [] => [[]]
  | x :: s' =>
      if (x =? c)%Z then [] :: split_chr c s'
      else match split_chr c s' with
           | [] => [[x]]
           | w :: ws => (x :: w) :: ws
           end
  end.

(** [s.split(sep)] for any non-empty separator: the occurrences are
    taken leftmost first and do not overlap.  [skip] counts the
    characters of the separator still to be passed over. *)
Fixpoint split_go (sep s : pystr) (skip : nat) : list pystr :=
  match s with
  | [] => [[]]
  | x :: s' =>
      match skip with
      | S n => split_go sep s' n
      | O =>
          if startswith sep s then [] :: split_go sep s' (length sep - 1)
          else match split_go sep s' 0 with
               | [] => [[x]]
               | w :: ws => (x :: w) :: ws
               end
      end
  end.

Definition split_str (sep s : pystr) : list pystr := split_go sep s 0.

(** ** Character classes *)

Definition in_range (lo hi c : Z) : bool := ((lo <=? c) && (c <=? hi))%Z.

Definition chr (a : ascii) (c : Z) : bool := (c =? code a)%Z.

Definition is_ascii (c : Z) : bool := (c <? 128)%Z.

(** Python's [str.isspace] on one character, which is also [\s] in a
    [str] pattern and what [str.strip()] removes. *)
Definition is_space (c : Z) : bool :=
  in_range 9 13 c || in_range 28 32 c || (c =? 133)%Z || (c =? 160)%Z
  || (c =? 5760)%Z || in_range 8192 8202 c || in_range 8232 8233 c
  || (c =? 8239)%Z || (c =? 8287)%Z || (c =? 12288)%Z.

Definition ascii_word (c : Z) : bool :=
  in_range 48 57 c || in_range 65 90 c || in_range 97 122 c || (c =? 95)%Z.

Definition ascii_lower (c : Z) : Z :=
  if in_range 65 90 c then (c + 32)%Z else c.

(** [.] without DOTALL, and with it. *)
Definition dot (c : Z) : bool := negb (c =? nl)%Z.
Definition dot_all (c : Z) : bool := true.

Definition none_of (p : Z -> bool) (c : Z) : bool := negb (p c).

(** One letter of a pattern under IGNORECASE: the letter, its ASCII
    capital, and the non-ASCII characters the [re] module folds onto
    [i] and [k]. *)
Definition nocase (a : ascii) (c : Z) : bool :=
  (c =? code a)%Z || (c =? code a - 32)%Z
  || ((code a =? 105)%Z && ((c =? 304)%Z || (c =? 305)%Z))
  || ((code a =? 107)%Z && (c =? 8490)%Z)
  || ((code a =? 115)%Z && (c =? 383)%Z).

(** [s.lstrip()], [s.rstrip()], [s.strip()] *)
Fixpoint lstrip (s : pystr) : pystr :=
  match s with
  | c :: s' => if is_space c then lstrip s' else s
  | [] => []
  end.

Definition rstrip (s : pystr) : pystr := rev (lstrip (rev s)).

Definition strip (s : pystr) : pystr := rstrip (lstrip s).

(** ** Regular expressions *)

Inductive re : Type :=
| Eps
| Chr (p : Z -> bool)
| Rep (p : Z -> bool) (lo : nat) (hi : option nat) (greedy : bool)
| Seq (a b : re)
| Alt (a b : re)
| Grp (i : nat) (a : re)
| Bol (multiline : bool)
| Eol (multiline : bool)
| NotBehind (p : Z -> bool)
| NotAhead (p : Z -> bool).

Infix ">>" := Seq (at level 41, right associativity).

(** A literal word of the pattern. *)
Fixpoint Lit (s : pystr) : re :=
  match s with
  | [] => Eps
  | [c] => Chr (Z.eqb c)
  | c :: s' => Chr (Z.eqb c) >> Lit s'
  end.

Definition star (p : Z -> bool) : re := Rep p 0 None true.
Definition plus (p : Z -> bool) : re := Rep p 1 None true.
Definition lazy_star (p : Z -> bool) : re := Rep p 0 None false.
Definition lazy_plus (p : Z -> bool) : re := Rep p 1 None false.

(** The position of the matcher: the character before it (none at the
    start of the string), the text still to read, and the groups closed
    so far. *)
Record cursor := Cursor {
  prev : option Z;
  rest : pystr;
  caps : list (nat * pystr)
}.

Definition room (hi : option nat) : bool :=
  match hi with Some O => false | _ => true end.

Definition less (hi : option nat) : option nat :=
  match hi with Some n => Some (pred n) | None => None end.

Section Matcher.
Context {R : Type}.

(** Repetition of a class: a greedy one takes a character first and
    gives it back when the continuation fails, a lazy one tries the
    continuation first. *)
Fixpoint rep (p : Z -> bool) (greedy : bool) (lo : nat) (hi : option nat)
    (cs : list (nat * pystr)) (k : cursor -> option R)
    (pv : option Z) (s : pystr) : option R :=
  let stop := match lo with O => k (Cursor pv s cs) | S _ => None end in
  let more :=
    match s with
    | c :: s' =>
        if p c && room hi
        then rep p greedy (pred lo) (less hi) cs k (Some c) s'
        else None
    | [] => None
    end in
  if greedy
  then match more with Some r => Some r | None => stop end
  else match stop with Some r => Some r | None => more end.

Fixpoint run (r : re) (k : cursor -> option R) (x : cursor) : option R :=
  match r with
  | Eps => k x
  | Chr p =>
      match rest x with
      | c :: s' => if p c then k (Cursor (Some c) s' (caps x)) else None
      | [] => None
      end
  | Rep p lo hi greedy => rep p greedy lo hi (caps x) k (prev x) (rest x)
  | Seq a b => run a (run b k) x
  | Alt a b =>
      match run a k x with
      | Some y => Some y
      | None => run b k x
      end
  | Grp i a =>
      run a (fun y =>
        k (Cursor (prev y) (rest y)
             ((i, take (length (rest x) - length (rest y)) (rest x)) :: caps y))) x
  | Bol multiline =>
      match prev x with
      | None => k x
      | Some c => if multiline && (c =? nl)%Z then k x else None
      end
  | Eol multiline =>
      match rest x with
      | [] => k x
      | c :: s' =>
          if (c =? nl)%Z && (multiline || match s' with [] => true | _ => false end)
          then k x else None
      end
  | NotBehind p =>
      match prev x with
      | Some c => if p c then None else k x
      | None => k x
      end
  | NotAhead p =>
      match rest x with
      | c :: _ => if p c then None else k x
      | [] => k x
      end
  end.
End Matcher.

(** A match: the text of group 0 and the numbered groups. *)
Record rmatch := Match {
  whole : pystr;
  groups : list (nat * pystr)
}.

Fixpoint assoc (i : nat) (l : list (nat * pystr)) : pystr :=
  match l with
  | [] => []
  | (j, v) :: l' => if Nat.eqb i j then v else assoc i l'
  end.

(** [m.group(i)] for [i >= 1]; every group of the source's patterns
    takes part in every match. *)
Definition group (i : nat) (m : rmatch) : pystr := assoc i (groups m).

(** One attempt at the position after [pv], in front of [s]. *)
Definition exec (r : re) (pv : option Z) (s : pystr) : option rmatch :=
  match run r Some (Cursor pv s []) with
  | Some y => Some (Match (take (length s - length (rest y)) s) (caps y))
  | None => None
  end.

(** [re.match(r, s)] *)
Definition re_match (r : re) (s : pystr) : option rmatch := exec r None s.

(** The scan shared by [re.sub], [re.findall] and [re.search]: the
    matches from left to right, none overlapping, with the characters
    between them.  [skip] counts the characters of the last match still
    to be passed over; after an empty match the scan moves on by one
    character. *)
Inductive piece := Plain (c : Z) | Hit (m : rmatch).

Fixpoint scan (r : re) (pv : option Z) (s : pystr) (skip : nat) : list piece :=
  match skip with
  | S n =>
      match s with
      | c :: s' => scan r (Some c) s' n
      | [] => []
      end
  | O =>
      match exec r pv s with
      | Some m =>
          Hit m ::
          match s with
          | c :: s' =>
              match length (whole m) with
              | O => Plain c :: scan r (Some c) s' 0
              | S n => scan r (Some c) s' n
              end
          | [] => []
          end
      | None =>
          match s with
          | c :: s' => Plain c :: scan r (Some c) s' 0
          | [] => []
          end
      end
  end.

(** [re.sub(r, f, s)] with a function [f] of the match. *)
Definition re_sub (r : re) (f : rmatch -> pystr) (s : pystr) : pystr :=
  flat_map (fun p => match p with Plain c => [c] | Hit m => f m end)
           (scan r None s 0).

Definition hits (l : list piece) : list rmatch :=
  flat_map (fun p => match p with Plain _ => [] | Hit m => [m] end) l.

(** [re.finditer(r, s)] as a list. *)
Definition re_finditer (r : re) (s : pystr) : list rmatch := hits (scan r None s 0).

(** [re.search(r, s)] *)
Definition re_search (r : re) (s : pystr) : option rmatch := head (re_finditer r s).

(** [re.findall(r, s)] for a pattern with two groups. *)
Definition re_findall2 (r : re) (s : pystr) : list (pystr * pystr) :=
  map (fun m => (group 1 m, group 2 m)) (re_finditer r s).

(** ** The Python runtime *)

(** [str(n)] for a non-negative [int]. *)
Fixpoint uint_str (d : Decimal.uint) : pystr :=
  match d with
  | Decimal.Nil => []
  | Decimal.D0 d => 48%Z :: uint_str d
  | Decimal.D1 d => 49%Z :: uint_str d
  | Decimal.D2 d => 50%Z :: uint_str d
  | Decimal.D3 d => 51%Z :: uint_str d
  | Decimal.D4 d => 52%Z :: uint_str d
  | Decimal.D5 d => 53%Z :: uint_str d
  | Decimal.D6 d => 54%Z :: uint_str d
  | Decimal.D7 d => 55%Z :: uint_str d
  | Decimal.D8 d => 56%Z :: uint_str d
  | Decimal.D9 d => 57%Z :: uint_str d
  end.

Definition str_of_nat (n : nat) : pystr := uint_str (Nat.to_uint n).

(** [s * n] *)
Definition repeat_str (s : pystr) (n : nat) : pystr := concat (replicate n s).

(** The Unicode tables of the interpreter beyond ASCII: which characters
    [\w] and [\d] accept, and [str.lower] on a string that is not pure
    ASCII (lowering is not character by character there). *)
Class Unicode := {
  uni_word : Z -> bool;
  uni_digit : Z -> bool;
  uni_lower : pystr -> pystr
}.

(** What [pathlib] and the disk answer in a run in which every call
    returns.  A path is kept as its text; [path_join] and
    [path_suffix] are computations on that text and touch no disk.
    The calls that can fail are modelled with their errors in
    [Calls], below, and the functions that make them in [Raising]. *)
Class FileSystem := {
  path_join : pystr -> pystr -> pystr;
  path_exists : pystr -> bool;
  path_suffix : pystr -> pystr;
  read_bytes : pystr -> list Z
}.

(** [base64.b64encode(bytes).decode()] *)
Definition b64_alphabet : pystr :=
  raw "ABCDEFGHIJKLMNOPQRSTUVWXYZabcdefghijklmnopqrstuvwxyz0123456789+/".

Definition b64_char (n : Z) : Z := nth (Z.to_nat n) b64_alphabet 61%Z.

Fixpoint b64encode (bs : list Z) : pystr :=
  match bs with
  | [] => []
  | [a] => [b64_char (a / 4); b64_char (a mod 4 * 16); 61; 61]%Z
  | [a; b] =>
      [b64_char (a / 4); b64_char (a mod 4 * 16 + b / 16);
       b64_char (b mod 16 * 4); 61]%Z
  | a :: b :: c :: bs' =>
      [b64_char (a / 4); b64_char (a mod 4 * 16 + b / 16);
       b64_char (b mod 16 * 4 + c / 64); b64_char (c mod 64)]%Z
      ++ b64encode bs'
  end.

Section Engine.
Context {U : Unicode} {F : FileSystem}.

(** [\w] and [\d] of a [str] pattern. *)
Definition is_word (c : Z) : bool :=
  ascii_word c || (negb (is_ascii c) && uni_word c).

Definition is_digit (c : Z) : bool :=
  in_range 48 57 c || (negb (is_ascii c) && uni_digit c).

(** [s.lower()] *)
Definition str_lower (s : pystr) : pystr :=
  if forallb is_ascii s then map ascii_lower s else uni_lower s.

(** ** [image_to_data_uri] *)

Definition image_to_data_uri (img_path : pystr) : pystr :=
  let suffix := str_lower (path_suffix img_path) in
  if str_eqb suffix (str ".svg") then
    str "data:image/svg+xml;base64," ++ b64encode (read_bytes img_path)
  else if str_eqb suffix (str ".jpg") || str_eqb suffix (str ".jpeg") then
    str "data:image/jpeg;base64," ++ b64encode (read_bytes img_path)
  else if str_eqb suffix (str ".png") then
    str "data:image/png;base64," ++ b64encode (read_bytes img_path)
  else if str_eqb suffix (str ".gif") then
    str "data:image/gif;base64," ++ b64encode (read_bytes img_path)
  else if str_eqb suffix (str ".webp") then
    str "data:image/webp;base64," ++ b64encode (read_bytes img_path)
  else [].

Definition svg_to_data_uri (svg_path : pystr) : pystr :=
  image_to_data_uri svg_path.

(** ** [generate_toc] *)

(** [^(#{2,3})\s+(.+)$] *)
Definition toc_header_re : re :=
  Bol false >> Grp 1 (Rep (chr "#") 2 (Some 3) true) >> plus is_space
  >> Grp 2 (plus dot) >> Eol false.

(** [\s*\{#[^}]+\}] *)
Definition anchor_note_re : re :=
  star is_space >> Lit (str "{#") >> plus (none_of (chr "}")) >> Lit (str "}").

(** [[^\w\s぀-ゟ゠-ヿ一-鿿-]] *)
Definition slug_keep (c : Z) : bool :=
  is_word c || is_space c || in_range 0x3040 0x309f c
  || in_range 0x30a0 0x30ff c || in_range 0x4e00 0x9fff c || chr "-" c.

Definition slug_drop_re : re := Chr (none_of slug_keep).

(** [\s+] *)
Definition spaces_re : re := plus is_space.

Definition erase (m : rmatch) : pystr := [].

(** The anchor derived from a cleaned title, before the duplicates are
    told apart. *)
Definition slug (title_clean : pystr) : pystr :=
  let anchor := re_sub slug_drop_re erase (str_lower title_clean) in
  re_sub spaces_re (fun _ => str "-") anchor.

(** The variables of the loop. *)
Record toc_state := TocState {
  toc_items : list pystr;
  modified_lines : list pystr;
  header_counts : gmap (list Z) nat
}.

(** One turn of [for line in lines]. *)
Definition toc_step (st : toc_state) (line : pystr) : toc_state :=
  match re_match toc_header_re line with
  | Some m =>
      let level := length (group 1 m) in
      let title := strip (group 2 m) in
      let title_clean := re_sub anchor_note_re erase title in
      let anchor := slug title_clean in
      let '(anchor, counts) :=
        match header_counts st !! anchor with
        | Some n =>
            (anchor ++ str "-" ++ str_of_nat (S n),
             <[anchor := S n]> (header_counts st))
        | None => (anchor, <[anchor := 0]> (header_counts st))
        end in
      let indent := repeat_str (str "  ") (level - 2) in
      TocState
        (toc_items st ++
           [indent ++ str "- [" ++ title_clean ++ str "](#" ++ anchor ++ str ")"])
        (modified_lines st ++
           [group 1 m ++ str " " ++ title_clean ++ str " {#" ++ anchor ++ str "}"])
        counts
  | None =>
      TocState (toc_items st) (modified_lines st ++ [line]) (header_counts st)
  end.

Definition toc_loop (lines : list pystr) : toc_state :=
  fold_left toc_step lines (TocState [] [] ∅).

(** The heading of the contents list, [## 目次] and a blank line. *)
Definition toc_heading : pystr := str "## " ++ [0x76ee; 0x6b21]%Z ++ str "\n\n".

Definition generate_toc (markdown : pystr) : pystr * pystr :=
  let st := toc_loop (split_chr nl markdown) in
  match toc_items st with
  | [] => ([], markdown)
  | _ =>
      (toc_heading ++ join (str "\n") (toc_items st) ++ str "\n\n---\n\n",
       join (str "\n") (modified_lines st))
  end.

(** ** [markdown_to_html_internal] *)

(** The image pattern of [re.findall] and of [replace_image]: [!], then
    [\[], group 1 = [[^\]]*], [\]\(], group 2 = [[^)]+], [\)]. *)
Definition image_re : re :=
  Lit (str "![") >> Grp 1 (star (none_of (chr "]"))) >> Lit (str "](")
  >> Grp 2 (plus (none_of (chr ")"))) >> Lit (str ")").

(** The loop [for alt_text, img_path_str in images] that
    [process_columns] and [process_inline_columns] both run. *)
Definition column_item (base_path : option pystr) (column_html : pystr)
    (image : pystr * pystr) : pystr :=
  let '(alt_text, img_path_str) := image in
  let img_path :=
    match base_path with
    | Some b => path_join b img_path_str
    | None => img_path_str
    end in
  if path_exists img_path then
    let data_uri := image_to_data_uri img_path in
    match data_uri with
    | [] => column_html
    | _ =>
        column_html ++ str "<figure class='column-item'><img src='" ++ data_uri
        ++ str "' alt='" ++ alt_text ++ str "'/><figcaption>" ++ alt_text
        ++ str "</figcaption></figure>"
    end
  else column_html.

Definition column_group (base_path : option pystr)
    (images : list (pystr * pystr)) : pystr :=
  fold_left (column_item base_path) images (str "<div class='image-columns'>")
  ++ str "</div>".

(** [<!--\s*columns\s*-->(.*?)<!--\s*/columns\s*-->] with DOTALL *)
Definition columns_re : re :=
  Lit (str "<!--") >> star is_space >> Lit (str "columns") >> star is_space
  >> Lit (str "-->") >> Grp 1 (lazy_star dot_all) >> Lit (str "<!--")
  >> star is_space >> Lit (str "/columns") >> star is_space >> Lit (str "-->").

Definition process_columns (base_path : option pystr) (m : rmatch) : pystr :=
  let content := group 1 m in
  let images := re_findall2 image_re content in
  match images with
  | [] => whole m
  | _ => column_group base_path images
  end.

(** The pattern of lines with two images, with MULTILINE: [^.*], an
    image, [.*], an image, [.*$], where an image is written as in
    [image_re] without its groups. *)
Definition image_nogroup : re :=
  Lit (str "![") >> star (none_of (chr "]")) >> Lit (str "](")
  >> plus (none_of (chr ")")) >> Lit (str ")").

Definition inline_columns_re : re :=
  Bol true >> star dot >> image_nogroup >> star dot >> image_nogroup
  >> star dot >> Eol true.

Definition process_inline_columns (base_path : option pystr) (m : rmatch) : pystr :=
  let line := whole m in
  let images := re_findall2 image_re line in
  if length images <? 2 then line
  else column_group base_path images.

(** [^(#{1,6})\s+(.+\{#[^}]+\})$] with MULTILINE *)
Definition anchored_header_re : re :=
  Bol true >> Grp 1 (Rep (chr "#") 1 (Some 6) true) >> plus is_space
  >> Grp 2 (plus dot >> Lit (str "{#") >> plus (none_of (chr "}")) >> Lit (str "}"))
  >> Eol true.

(** [\{#([^}]+)\}] *)
Definition anchor_re : re :=
  Lit (str "{#") >> Grp 1 (plus (none_of (chr "}"))) >> Lit (str "}").

Definition header_with_anchor (m : rmatch) : pystr :=
  let hashes := group 1 m in
  let title := group 2 m in
  match re_search anchor_re title with
  | Some anchor_match =>
      let anchor := group 1 anchor_match in
      let title_clean := re_sub anchor_note_re erase title in
      let level := str_of_nat (length hashes) in
      str "<h" ++ level ++ str " id='" ++ anchor ++ str "'>" ++ title_clean
      ++ str "</h" ++ level ++ str ">"
  | None => whole m
  end.

Definition replace_image (base_path : option pystr) (m : rmatch) : pystr :=
  let alt_text := group 1 m in
  let img_path_str := group 2 m in
  let img_path :=
    match base_path with
    | Some b => path_join b img_path_str
    | None => img_path_str
    end in
  let placeholder :=
    str "<figure class='missing-image'><div style='background:#f0f0f0; padding:40px; text-align:center; border:1px dashed #ccc;'>[Image: "
    ++ alt_text ++ str "]</div></figure>" in
  if path_exists img_path then
    let data_uri := image_to_data_uri img_path in
    match data_uri with
    | [] => placeholder
    | _ =>
        str "<figure><img src='" ++ data_uri ++ str "' alt='" ++ alt_text
        ++ str "' style='max-width:100%; height:auto;'/><figcaption>" ++ alt_text
        ++ str "</figcaption></figure>"
    end
  else placeholder.

(** *** Blockquotes *)

Record quote_state := QuoteState {
  q_result_lines : list pystr;
  in_blockquote : bool;
  blockquote_content : list pystr
}.

Definition blockquote_html (content : list pystr) : pystr :=
  str "<blockquote>" ++ join (str "<br/>") content ++ str "</blockquote>".

Definition quote_step (st : quote_state) (line : pystr) : quote_state :=
  if startswith (str "> ") (strip line) then
    let content := if in_blockquote st then blockquote_content st else [] in
    QuoteState (q_result_lines st) true (content ++ [drop 2 (strip line)])
  else if in_blockquote st then
    QuoteState
      (q_result_lines st ++ [blockquote_html (blockquote_content st)] ++ [line])
      false []
  else
    QuoteState (q_result_lines st ++ [line]) false (blockquote_content st).

Definition blockquotes (html : pystr) : pystr :=
  let st := fold_left quote_step (split_chr nl html) (QuoteState [] false []) in
  let result_lines :=
    if in_blockquote st
    then q_result_lines st ++ [blockquote_html (blockquote_content st)]
    else q_result_lines st in
  join (str "\n") result_lines.

(** *** Headers, emphasis, links, rules *)

(** [^### (.+)$], [^## (.+)$], [^# (.+)$] with MULTILINE *)
Definition plain_header_re (hashes : pystr) : re :=
  Bol true >> Lit (hashes ++ str " ") >> Grp 1 (plus dot) >> Eol true.

Definition wrap (open_tag close_tag : pystr) (m : rmatch) : pystr :=
  open_tag ++ group 1 m ++ close_tag.

(** Three stars, group 1 = [.+?], three stars. *)
Definition bold_italic_re : re :=
  Lit (str "***") >> Grp 1 (lazy_plus dot) >> Lit (str "***").

(** Two stars, group 1 = [.+?], two stars. *)
Definition bold_re : re :=
  Lit (str "**") >> Grp 1 (lazy_plus dot) >> Lit (str "**").

(** One star not after a star, group 1 = [[^*\n]+?], one star not
    before a star. *)
Definition italic_re : re :=
  NotBehind (chr "*") >> Lit (str "*")
  >> Grp 1 (lazy_plus (none_of (fun c => chr "*" c || (c =? nl)%Z)))
  >> Lit (str "*") >> NotAhead (chr "*").

(** [\[([^\]]+)\]\(([^)]+)\)] *)
Definition link_re : re :=
  Lit (str "[") >> Grp 1 (plus (none_of (chr "]"))) >> Lit (str "](")
  >> Grp 2 (plus (none_of (chr ")"))) >> Lit (str ")").

Definition link_html (m : rmatch) : pystr :=
  str "<a href='" ++ group 2 m ++ str "'>" ++ group 1 m ++ str "</a>".

(** [^---+$] with MULTILINE *)
Definition rule_re : re :=
  Bol true >> Lit (str "--") >> plus (chr "-") >> Eol true.

(** *** Tables *)

(** [[c.strip() for c in line.split('|')[1:-1]]], and when that is
    empty [[c.strip() for c in line.split('|') if c.strip()]]. *)
Definition row_cells (line : pystr) : list pystr :=
  match map strip (removelast (tail (split_chr (code "|") line))) with
  | [] =>
      map strip
        (filter (fun c => strip c ≠ []) (split_chr (code "|") line))
  | cells => cells
  end.

Definition body_row (line : pystr) : list pystr :=
  match row_cells line with
  | [] => []
  | cells =>
      [str "<tr>"] ++ map (fun cell => str "<td>" ++ cell ++ str "</td>") cells
      ++ [str "</tr>"]
  end.

Definition convert_table (table_lines : list pystr) : pystr :=
  if length table_lines <? 2 then join (str "\n") table_lines
  else
    let header := hd [] table_lines in
    let html_parts :=
      [str "<table>"] ++ [str "<thead><tr>"]
      ++ map (fun cell => str "<th>" ++ cell ++ str "</th>") (row_cells header)
      ++ [str "</tr></thead>"] ++ [str "<tbody>"]
      ++ flat_map body_row (drop 2 table_lines)
      ++ [str "</tbody></table>"] in
    join (str "\n") html_parts.

(** [^\|[\s\-:|]+\|$] *)
Definition separator_re : re :=
  Bol false >> Lit (str "|")
  >> plus (fun c => is_space c || chr "-" c || chr ":" c || chr "|" c)
  >> Lit (str "|") >> Eol false.

Definition is_table_row (stripped : pystr) : bool :=
  let is_table_line :=
    startswith (str "|") stripped && endswith (str "|") stripped in
  let is_separator := re_match separator_re stripped in
  is_table_line || bool_decide (is_Some is_separator).

Record table_state := TableState {
  t_result_lines : list pystr;
  table_buffer : list pystr;
  in_table : bool
}.

Definition table_step (st : table_state) (line : pystr) : table_state :=
  let stripped := strip line in
  if is_table_row stripped then
    TableState (t_result_lines st) (table_buffer st ++ [stripped]) true
  else
    match in_table st, table_buffer st with
    | true, _ :: _ =>
        TableState (t_result_lines st ++ [convert_table (table_buffer st)] ++ [line])
                   [] false
    | _, _ => TableState (t_result_lines st ++ [line]) (table_buffer st) (in_table st)
    end.

Definition table_flush (st : table_state) : list pystr :=
  match table_buffer st with
  | [] => t_result_lines st
  | _ => t_result_lines st ++ [convert_table (table_buffer st)]
  end.

Definition tables (html : pystr) : pystr :=
  join (str "\n")
    (table_flush (fold_left table_step (split_chr nl html) (TableState [] [] false))).

(** *** Lists *)

(** [^\d+\.\s] *)
Definition ordered_re : re :=
  Bol false >> plus is_digit >> Lit (str ".") >> Chr is_space.

Record list_state := ListState {
  l_result : list pystr;
  in_ul : bool;
  in_ol : bool
}.

Definition list_item (content : pystr) : pystr :=
  str "<li>" ++ content ++ str "</li>".

Definition list_step (st : list_state) (line : pystr) : list_state :=
  let stripped := strip line in
  if startswith (str "- ") stripped || startswith (str "* ") stripped then
    let result := if in_ol st then l_result st ++ [str "</ol>"] else l_result st in
    let result := if in_ul st then result else result ++ [str "<ul>"] in
    ListState (result ++ [list_item (drop 2 stripped)]) true false
  else if bool_decide (is_Some (re_match ordered_re stripped)) then
    let result := if in_ul st then l_result st ++ [str "</ul>"] else l_result st in
    let result := if in_ol st then result else result ++ [str "<ol>"] in
    ListState (result ++ [list_item (re_sub ordered_re erase stripped)]) false true
  else
    let result := if in_ul st then l_result st ++ [str "</ul>"] else l_result st in
    let result := if in_ol st then result ++ [str "</ol>"] else result in
    ListState (result ++ [line]) false false.

Definition lists (html : pystr) : pystr :=
  let st := fold_left list_step (split_chr nl html) (ListState [] false false) in
  let result := if in_ul st then l_result st ++ [str "</ul>"] else l_result st in
  let result := if in_ol st then result ++ [str "</ol>"] else result in
  join (str "\n") result.

(** *** Paragraphs *)

Fixpoint one_of (l : list re) : re :=
  match l with
  | [] => Chr (fun _ => false)
  | [a] => a
  | a :: l' => Alt a (one_of l')
  end.

Fixpoint LitNoCase (s : string) : re :=
  match s with
  | EmptyString => Eps
  | String a EmptyString => Chr (nocase a)
  | String a s' => Chr (nocase a) >> LitNoCase s'
  end.

(** [^<(h[1-6]|ul|ol|li|blockquote|figure|hr|p|div|table)] with IGNORECASE *)
Definition block_tag_re : re :=
  Bol false >> Lit (str "<")
  >> Grp 1 (one_of
       [Chr (nocase "h") >> Chr (in_range 49 54); LitNoCase "ul"; LitNoCase "ol";
        LitNoCase "li"; LitNoCase "blockquote"; LitNoCase "figure";
        LitNoCase "hr"; LitNoCase "p"; LitNoCase "div"; LitNoCase "table"]).

Definition paragraph_step (processed_blocks : list pystr) (block : pystr)
    : list pystr :=
  let stripped := strip block in
  match stripped with
  | [] => processed_blocks
  | _ =>
      if bool_decide (is_Some (re_match block_tag_re stripped)) then
        processed_blocks ++ [stripped]
      else if startswith (str "<") stripped then
        processed_blocks ++ [stripped]
      else
        processed_blocks ++ [str "<p>" ++ stripped ++ str "</p>"]
  end.

Definition paragraphs (html : pystr) : pystr :=
  join (str "\n") (fold_left paragraph_step (split_str (str "\n\n") html) []).

(** *** The passes in order *)

Definition markdown_to_html_internal (markdown : pystr)
    (base_path : option pystr) : pystr :=
  let html := markdown in
  let html := re_sub columns_re (process_columns base_path) html in
  let html := re_sub inline_columns_re (process_inline_columns base_path) html in
  let html := re_sub anchored_header_re header_with_anchor html in
  let html := re_sub anchor_note_re erase html in
  let html := re_sub image_re (replace_image base_path) html in
  let html := blockquotes html in
  let html := re_sub (plain_header_re (str "###")) (wrap (str "<h3>") (str "</h3>")) html in
  let html := re_sub (plain_header_re (str "##")) (wrap (str "<h2>") (str "</h2>")) html in
  let html := re_sub (plain_header_re (str "#")) (wrap (str "<h1>") (str "</h1>")) html in
  let html :=
    re_sub bold_italic_re (wrap (str "<strong><em>") (str "</em></strong>")) html in
  let html := re_sub bold_re (wrap (str "<strong>") (str "</strong>")) html in
  let html := re_sub italic_re (wrap (str "<em>") (str "</em>")) html in
  let html := re_sub link_re link_html html in
  let html := re_sub rule_re (fun _ => str "<hr/>") html in
  let html := tables html in
  let html := lists html in
  paragraphs html.

(** ** [markdown_to_html] *)

Definition markdown_to_html (markdown : pystr) (base_path : option pystr)
    (include_toc : bool) : pystr :=
  let '(toc_html, markdown) :=
    if include_toc then
      let '(toc_md, markdown) := generate_toc markdown in
      match toc_md with
      | [] => ([], markdown)
      | _ =>
          (str "<nav class='toc'>" ++ markdown_to_html_internal toc_md base_path
           ++ str "</nav>", markdown)
      end
    else ([], markdown) in
  let content_html := markdown_to_html_internal markdown base_path in
  toc_html ++ content_html.

(** ** The figure sections of [generate_html_report] *)

(** A descriptor of the caller: [{'path': ..., 'caption': ...}], the
    caption being optional ([img.get('caption', '')]). *)
Record descriptor := Descriptor {
  d_path : pystr;
  d_caption : option pystr
}.

Definition caption (d : descriptor) : pystr := default [] (d_caption d).

Definition enumerate {A} (l : list A) : list (nat * A) :=
  combine (seq 0 (length l)) l.

Definition indent20 : pystr := repeat_str (str " ") 20.
Definition indent24 : pystr := repeat_str (str " ") 24.

(** The text one descriptor adds: the triple-quoted f-string of the
    loop, with its line feeds and indentation. *)
Definition figure_block (label data_uri : pystr) (i : nat) (d : descriptor) : pystr :=
  str "\n" ++ indent20 ++ str "<figure>\n"
  ++ indent24 ++ str "<img src='" ++ data_uri ++ str "' alt='" ++ caption d
  ++ str "'/>\n"
  ++ indent24 ++ str "<figcaption>" ++ label ++ str " " ++ str_of_nat (i + 1)
  ++ str ": " ++ caption d ++ str "</figcaption>\n"
  ++ indent20 ++ str "</figure>\n" ++ indent20.

Definition images_step (images_html : pystr) (e : nat * descriptor) : pystr :=
  let '(i, img) := e in
  let img_path := d_path img in
  if path_exists img_path then
    if str_eqb (str_lower (path_suffix img_path)) (str ".svg") then
      let data_uri := svg_to_data_uri img_path in
      images_html ++ figure_block (str "Figure") data_uri i img
    else images_html
  else images_html.

Definition images_section (images : list descriptor) : pystr :=
  match images with
  | [] => []
  | _ =>
      fold_left images_step (enumerate images)
        (str "<div class='images-section'><h2>Figures</h2>")
      ++ str "</div>"
  end.

Definition diagrams_step (diagrams_html : pystr) (e : nat * descriptor) : pystr :=
  let '(i, diag) := e in
  let diag_path := d_path diag in
  if path_exists diag_path then
    if str_eqb (str_lower (path_suffix diag_path)) (str ".svg") then
      let data_uri := svg_to_data_uri diag_path in
      diagrams_html ++ figure_block (str "Diagram") data_uri i diag
    else diagrams_html
  else diagrams_html.

Definition diagrams_section (diagrams : list descriptor) : pystr :=
  match diagrams with
  | [] => []
  | _ =>
      fold_left diagrams_step (enumerate diagrams)
        (str "<div class='diagrams-section'><h2>Diagrams</h2>")
      ++ str "</div>"
  end.

(** The page: [head] stands for the template up to [<body>] (title
    and style sheet), [date] and [author] for the metadata read with
    their defaults. *)
Definition generate_html_report (head title date author content : pystr)
    (images diagrams : list descriptor) (base_path : option pystr) : pystr :=
  let content_html := markdown_to_html content base_path true in
  let images_html := images_section images in
  let diagrams_html := diagrams_section diagrams in
  head ++ str "<body>\n    <h1>" ++ title ++ str "</h1>\n    <div class='metadata'>\n        <p>Date: "
  ++ date ++ str " | Author: " ++ author
  ++ str "</p>\n    </div>\n    <div class='content'>\n        " ++ content_html
  ++ str "\n    </div>\n    " ++ diagrams_html ++ str "\n    " ++ images_html
  ++ str "\n</body>\n</html>".

End Engine.

(** ** Instances used to evaluate the code *)

(** Tables with no entry beyond ASCII; they are consulted for no
    character of an ASCII text. *)
Definition ascii_only : Unicode :=
  {| uni_word := fun _ => false;
     uni_digit := fun _ => false;
     uni_lower := fun s => s |}.

(** [PurePath.suffix]: the last component from its last dot on, when
    that dot is neither its first nor its last character. *)
Definition last_component (p : pystr) : pystr :=
  List.last (split_chr (code "/") p) [].

Definition suffix_of (p : pystr) : pystr :=
  let name := last_component p in
  let ext := List.last (split_chr (code ".") name) [] in
  let i := length name - length ext - 1 in
  if (0 <? i) && (0 <? length ext) && (length ext <? length name)
  then drop i name else [].

(** A disk holding exactly the listed files. *)
Definition disk (files : list (pystr * list Z)) : FileSystem :=
  {| path_join := fun base p =>
       if startswith (str "/") p then p else base ++ str "/" ++ p;
     path_exists := fun p => bool_decide (p ∈ map fst files);
     path_suffix := suffix_of;
     read_bytes := fun p =>
       match find (fun f => str_eqb (fst f) p) files with
       | Some f => snd f
       | None => []
       end |}.

(** ** Inputs and outputs of the examples *)

Definition example_input : pystr :=
  str "## Intro\n\nHello **world**.\n\n| A | B |\n|---|---|\n| 1 | 2 |".

Definition example_output : pystr :=
  str "<nav class='toc'><h2>" ++ [0x76ee; 0x6b21]%Z ++ str "</h2>\n"
  ++ str "<ul>\n<li><a href='#intro'>Intro</a></li>\n</ul>\n<hr/></nav>"
  ++ str "<h2 id='intro'>Intro</h2>\n"
  ++ str "<p>Hello <strong>world</strong>.</p>\n"
  ++ str "<table>\n<thead><tr>\n<th>A</th>\n<th>B</th>\n</tr></thead>\n"
  ++ str "<tbody>\n<tr>\n<td>1</td>\n<td>2</td>\n</tr>\n</tbody></table>".


(** ** Definitions the statements use *)

(** The character before the position once [l] has been read. *)
Definition last_or (l : pystr) (pv : option Z) : option Z :=
  match l with [] => pv | _ => Some (List.last l 0%Z) end.

(** A table with the header cells of [header] and no body row. *)
Definition empty_table (header : pystr) : pystr :=
  join (str "\n")
    ([str "<table>"; str "<thead><tr>"]
     ++ map (fun cell => str "<th>" ++ cell ++ str "</th>") (row_cells header)
     ++ [str "</tr></thead>"; str "<tbody>"; str "</tbody></table>"]).

(** The loop keeps [in_table] set exactly while rows are buffered. *)
Definition table_coherent (st : table_state) : Prop :=
  in_table st = negb (bool_decide (table_buffer st = [])).

(** The lines the table pass puts out for the lines [lines]: the
    loop from its initial state, then the flush at the end of the
    input. *)
Definition table_lines (lines : list pystr) : list pystr :=
  table_flush (fold_left table_step lines (TableState [] [] false)).

(** A continuation that only goes on in front of the character [c]. *)
Definition demands {R} (c : Z) (k : cursor -> option R) : Prop :=
  forall x, is_Some (k x) -> exists r, rest x = c :: r.

(** The text before the first [c], and the text from it on. *)
Fixpoint upto (c : Z) (s : pystr) : pystr :=
  match s with
  | [] => []
  | x :: s' => if (x =? c)%Z then [] else x :: upto c s'
  end.

Fixpoint from (c : Z) (s : pystr) : pystr :=
  match s with
  | [] => []
  | x :: s' => if (x =? c)%Z then s else from c s'
  end.

(** An image reference at the head of [s], read directly: its
    alternative text, its path, and the text after it. *)
Definition img (s : pystr) : option (pystr * pystr * pystr) :=
  if startswith [33; 91]%Z s then
    let s1 := drop 2 s in
    if startswith [93; 40]%Z (from 93 s1) then
      let s2 := drop 2 (from 93 s1) in
      if 1 <=? length (upto 41 s2) then
        if startswith [41%Z] (from 41 s2)
        then Some (upto 93 s1, upto 41 s2, drop 1 (from 41 s2))
        else None
      else None
    else None
  else None.

(** The matches of the image pattern in [s]. *)
Definition found (s : pystr) : list rmatch := hits (scan image_re None s 0).

(** An image reference begins somewhere in [s]. *)
Definition has_image (s : pystr) : Prop :=
  exists t, t `suffix_of` s /\ is_Some (img t).

(** Two image references that do not overlap begin in [s]. *)
Definition has_two_images (s : pystr) : Prop :=
  exists t a p r, t `suffix_of` s /\ img t = Some (a, p, r) /\ has_image r.

(** What the paragraph stage makes of one block: nothing when only
    white space is left, the trimmed block itself when it begins with
    [<], and one paragraph around the trimmed block otherwise. *)
Definition wrap_block (block : pystr) : option pystr :=
  match strip block with
  | [] => None
  | stripped =>
      if startswith (str "<") stripped then Some stripped
      else Some (str "<p>" ++ stripped ++ str "</p>")
  end.

Section Statements.
Context {U : Unicode} {F : FileSystem}.

(** The header a line of the document is for [generate_toc]: its
    hashes and its title, trimmed and cleaned of anchor notes. *)
Definition header_of (line : pystr) : option (pystr * pystr) :=
  match re_match toc_header_re line with
  | Some m => Some (group 1 m, re_sub anchor_note_re erase (strip (group 2 m)))
  | None => None
  end.

(** The collision policy in the words of the specification: [seen]
    holds the base slugs of the headers met so far; a slug met for the
    first time is used bare, and its Nth collision is [slug-N]. *)
Definition collisions (seen : list pystr) (s : pystr) : nat :=
  length (filter (eq s) seen).

Definition numbered (seen : list pystr) (s : pystr) : pystr :=
  match collisions seen s with
  | O => s
  | S n => s ++ str "-" ++ str_of_nat (S n)
  end.

(** What [header_counts] holds once the headers with the slugs [seen]
    have been read: nothing for a slug not met, and for a slug met
    [n + 1] times the number [n] of its collisions. *)
Definition counts_of (seen : list pystr) (counts : gmap (list Z) nat) : Prop :=
  forall s, counts !! s
            = match collisions seen s with O => None | S n => Some n end.

Fixpoint spec_lines (seen : list pystr) (lines : list pystr) : list pystr :=
  match lines with
  | [] => []
  | line :: lines' =>
      match header_of line with
      | Some (hashes, title) =>
          (hashes ++ str " " ++ title ++ str " {#" ++ numbered seen (slug title)
           ++ str "}")
          :: spec_lines (seen ++ [slug title]) lines'
      | None => line :: spec_lines seen lines'
      end
  end.

Fixpoint spec_items (seen : list pystr) (lines : list pystr) : list pystr :=
  match lines with
  | [] => []
  | line :: lines' =>
      match header_of line with
      | Some (hashes, title) =>
          (repeat_str (str "  ") (length hashes - 2) ++ str "- [" ++ title
           ++ str "](#" ++ numbered seen (slug title) ++ str ")")
          :: spec_items (seen ++ [slug title]) lines'
      | None => spec_items seen lines'
      end
  end.

End Statements.

(** A disk with one raster image and one vector image. *)
Definition two_files : FileSystem :=
  disk [(str "photo.png", [137; 80; 78; 71]%Z);
        (str "chart.svg", [60; 115; 118; 103; 62]%Z)].

(** ** Definitions for the further properties *)

(** The longest prefix of characters of the class [p], and the text
    that follows it. *)
Fixpoint leading (p : Z -> bool) (s : pystr) : pystr :=
  match s with
  | c :: s' => if p c then c :: leading p s' else []
  | [] => []
  end.

Fixpoint beyond (p : Z -> bool) (s : pystr) : pystr :=
  match s with
  | c :: s' => if p c then beyond p s' else s
  | [] => []
  end.

(** Whether a count fits under the upper bound of a repetition. *)
Definition fits (n : nat) (hi : option nat) : bool :=
  match hi with Some h => n <=? h | None => true end.

(** A continuation that only goes on at the end of the text or in
    front of a character outside the class [p]. *)
Definition stops {R} (p : Z -> bool) (k : cursor -> option R) : Prop :=
  forall x, is_Some (k x) ->
    match rest x with c :: _ => p c = false | [] => True end.

(** The header that [generate_toc] reads on a line, in closed form:
    two or three hashes, then a white-space character and at least
    one more character; the title is what follows the hashes,
    trimmed. *)
Definition toc_header_shape (line : pystr) : option (pystr * pystr) :=
  let hashes := leading (chr "#") line in
  let r := beyond (chr "#") line in
  if (2 <=? length hashes) && (length hashes <=? 3)
     && match r with c :: _ :: _ => is_space c | _ => false end
  then Some (hashes, strip r) else None.

(** Group 2 of the header pattern on the text [r] after the hashes. *)
Definition title_group (r : pystr) : pystr :=
  match lstrip r with
  | [] => [List.last r 0%Z]
  | g => g
  end.

(** An anchor note at the head of [s], read directly: white space,
    then [{#], a run of characters other than [}] that is not empty,
    and [}]; the result is the text after the note. *)
Definition note (s : pystr) : option pystr :=
  let s1 := beyond is_space s in
  if startswith [123; 35]%Z s1 then
    let s2 := drop 2 s1 in
    if 1 <=? length (upto 125 s2) then
      if startswith [125%Z] (from 125 s2) then Some (drop 1 (from 125 s2))
      else None
    else None
  else None.

(** A text with no blank line: no line feed is followed by a line
    feed. *)
Fixpoint blank_free (s : pystr) : bool :=
  match s with
  | c :: s' =>
      negb ((c =? nl)%Z && match s' with c' :: _ => (c' =? nl)%Z | [] => false end)
      && blank_free s'
  | [] => true
  end.

(** A block as the paragraph stage puts it out: it begins with [<],
    holds no blank line and does not end with white space. *)
Definition tidy_block (b : pystr) : Prop :=
  (exists r, b = 60%Z :: r) /\ blank_free b = true
  /\ is_space (List.last b 0%Z) = false.

Section MoreStatements.
Context {U : Unicode} {F : FileSystem}.

(** A trimmed line the list pass takes for an item: it begins with
    [- ] or [* ], or with digits, a dot and a white-space character. *)
Definition is_list_item (stripped : pystr) : bool :=
  startswith (str "- ") stripped || startswith (str "* ") stripped
  || bool_decide (is_Some (re_match ordered_re stripped)).

(** The suffixes [image_to_data_uri] has a branch for. *)
Definition embeddable_suffix (suffix : pystr) : bool :=
  str_eqb suffix (str ".svg") || str_eqb suffix (str ".jpg")
  || str_eqb suffix (str ".jpeg") || str_eqb suffix (str ".png")
  || str_eqb suffix (str ".gif") || str_eqb suffix (str ".webp").

(** [base_path / img_path_str], or [Path(img_path_str)] with no base. *)
Definition resolve (base_path : option pystr) (img_path_str : pystr) : pystr :=
  match base_path with
  | Some b => path_join b img_path_str
  | None => img_path_str
  end.

(** The placeholder of [replace_image]. *)
Definition missing_image (alt_text : pystr) : pystr :=
  str "<figure class='missing-image'><div style='background:#f0f0f0; padding:40px; text-align:center; border:1px dashed #ccc;'>[Image: "
  ++ alt_text ++ str "]</div></figure>".

(** A line that is no header of the contents list, or a header
    with no opening brace on its line and a title whose slug is not
    empty. *)
Definition plain_header (line : pystr) : bool :=
  match header_of line with
  | Some (hashes, title) =>
      forallb (fun c => negb (c =? 123)%Z) line
      && negb (bool_decide (slug title = []))
  | None => true
  end.

End MoreStatements.

(** * [scripts/fetch_images.py] *)

Section FetchImages.
Context {U : Unicode}.

(** The class of the pattern of [sanitize_filename] is the complement
    of this one: a word character or a hyphen. *)
Definition filename_keep (c : Z) : bool := is_word c || chr "-" c.

Definition unsafe_char_re : re := Chr (none_of filename_keep).

(** [sanitize_filename]: every character outside the class becomes an
    underscore, and the first 50 characters are kept. *)
Definition sanitize_filename (name : pystr) : pystr :=
  take 50 (re_sub unsafe_char_re (fun _ => str "_") name).

(** The file name [fetch_placeholder_images] forms at index [i] of its
    loop: the sanitized topic, an underscore, [i+1] and [.svg]. *)
Definition placeholder_filename (topic : pystr) (i : nat) : pystr :=
  sanitize_filename topic ++ str "_" ++ str_of_nat (i + 1) ++ str ".svg".

(** The file names of one call, in the order of the loop over
    [range(count)]. *)
Definition placeholder_filenames (topic : pystr) (count : nat) : list pystr :=
  map (placeholder_filename topic) (seq 0 count).

End FetchImages.

(** * [scripts/create_diagram.py] *)

(** ** The grid of [create_stat_cards_svg]

    The numbers of the layout for [n = len(data)] cards; [i] is the
    index of a card in the loop.  [rows] is [math.ceil(len(data) / cols)]:
    the quotient is a float there, and its ceiling is the ceiling of
    the exact quotient for every list of fewer than [2^53] entries. *)
Module StatCards.

Definition card_width : Z := 180.
Definition card_height : Z := 100.
Definition gap : Z := 20.
Definition padding : Z := 30.

Definition cols (n : Z) : Z := Z.min n 4.
Definition rows (n : Z) : Z := (n + cols n - 1) / cols n.

Definition width (n : Z) : Z :=
  padding * 2 + cols n * card_width + (cols n - 1) * gap.
Definition height (n : Z) : Z :=
  padding * 2 + rows n * card_height + (rows n - 1) * gap + 40.

Definition y_start : Z := padding + 30.

Definition col (n i : Z) : Z := i mod cols n.
Definition row (n i : Z) : Z := i / cols n.
Definition x (n i : Z) : Z := padding + col n i * (card_width + gap).
Definition y (n i : Z) : Z := y_start + row n i * (card_height + gap).

End StatCards.

(** ** The rows of [create_comparison_table_svg]

    An item is a dict; what the loop reads of it is [item.keys()], the
    keys in the order of the dict. *)
Definition add_key (all_keys : list pystr) (key : pystr) : list pystr :=
  if bool_decide ((key ∉ all_keys) /\ key <> str "name")
  then all_keys ++ [key] else all_keys.

Definition all_keys (items : list (list pystr)) : list pystr :=
  fold_left (fun acc keys => fold_left add_key keys acc) items [].

(** The height of the drawing, from the keys. *)
Definition table_height (items : list (list pystr)) : Z :=
  20 * 2 + 50 + 40 * (Z.of_nat (length (all_keys items)) + 1).

(** * The file system with its errors

    [Path.exists()] and [Path.read_bytes()] can fail: [exists] hands
    on every [OSError] but ENOENT, ENOTDIR, EBADF and ELOOP (a name
    that is too long, for one), and [read_bytes] raises on a directory
    or on a file that cannot be read.  No function of
    [generate_pdf.py] that makes one of these calls catches the
    error, so it ends the function and all its callers.  A call
    returns a value or raises an [OSError], kept as its [errno]. *)
Inductive outcome (A : Type) : Type :=
| Returns (a : A)
| Raises (errno : Z).

Arguments Returns {A} a.
Arguments Raises {A} errno.

#[global] Instance outcome_ret : MRet outcome := @Returns.

#[global] Instance outcome_bind : MBind outcome :=
  fun A B f x =>
    match x with
    | Returns a => f a
    | Raises errno => Raises errno
    end.

Class Calls := {
  call_exists : pystr -> outcome bool;
  call_read_bytes : pystr -> outcome (list Z)
}.

(** [re.sub(r, f, s)] with a function [f] that can raise: the matches
    are handed to [f] from left to right, and the first error ends
    the substitution. *)
Fixpoint substitute (f : rmatch -> outcome pystr) (l : list piece) : outcome pystr :=
  match l with
  | [] => mret []
  | Plain c :: l' => rest ← substitute f l'; mret (c :: rest)
  | Hit m :: l' => text ← f m; rest ← substitute f l'; mret (text ++ rest)
  end.

Definition re_sub_raising (r : re) (f : rmatch -> outcome pystr) (s : pystr)
    : outcome pystr :=
  substitute f (scan r None s 0).

(** A [for] loop over [l] that updates [a] and whose body can raise. *)
Fixpoint fold_raising {A B} (f : A -> B -> outcome A) (l : list B) (a : A)
    : outcome A :=
  match l with
  | [] => mret a
  | x :: l' => a' ← f a x; fold_raising f l' a'
  end.

(** The functions of [generate_pdf.py] that call the file system,
    under their names, with the calls as they are. *)
Module Raising.
Section Functions.
Context {U : Unicode} {F : FileSystem} {C : Calls}.

Definition image_to_data_uri (img_path : pystr) : outcome pystr :=
  let suffix := str_lower (path_suffix img_path) in
  if str_eqb suffix (str ".svg") then
    content ← call_read_bytes img_path;
    mret (str "data:image/svg+xml;base64," ++ b64encode content)
  else if str_eqb suffix (str ".jpg") || str_eqb suffix (str ".jpeg") then
    content ← call_read_bytes img_path;
    mret (str "data:image/jpeg;base64," ++ b64encode content)
  else if str_eqb suffix (str ".png") then
    content ← call_read_bytes img_path;
    mret (str "data:image/png;base64," ++ b64encode content)
  else if str_eqb suffix (str ".gif") then
    content ← call_read_bytes img_path;
    mret (str "data:image/gif;base64," ++ b64encode content)
  else if str_eqb suffix (str ".webp") then
    content ← call_read_bytes img_path;
    mret (str "data:image/webp;base64," ++ b64encode content)
  else mret [].

Definition svg_to_data_uri (svg_path : pystr) : outcome pystr :=
  image_to_data_uri svg_path.

Definition column_item (base_path : option pystr) (column_html : pystr)
    (image : pystr * pystr) : outcome pystr :=
  let '(alt_text, img_path_str) := image in
  let img_path :=
    match base_path with
    | Some b => path_join b img_path_str
    | None => img_path_str
    end in
  found ← call_exists img_path;
  if found : bool then
    data_uri ← image_to_data_uri img_path;
    match data_uri with
    | [] => mret column_html
    | _ =>
        mret (column_html ++ str "<figure class='column-item'><img src='" ++ data_uri
              ++ str "' alt='" ++ alt_text ++ str "'/><figcaption>" ++ alt_text
              ++ str "</figcaption></figure>")
    end
  else mret column_html.

Definition column_group (base_path : option pystr)
    (images : list (pystr * pystr)) : outcome pystr :=
  column_html ← fold_raising (column_item base_path) images
                  (str "<div class='image-columns'>");
  mret (column_html ++ str "</div>").

Definition process_columns (base_path : option pystr) (m : rmatch) : outcome pystr :=
  let content := group 1 m in
  let images := re_findall2 image_re content in
  match images with
  | [] => mret (whole m)
  | _ => column_group base_path images
  end.

Definition process_inline_columns (base_path : option pystr) (m : rmatch)
    : outcome pystr :=
  let line := whole m in
  let images := re_findall2 image_re line in
  if length images <? 2 then mret line
  else column_group base_path images.

Definition replace_image (base_path : option pystr) (m : rmatch) : outcome pystr :=
  let alt_text := group 1 m in
  let img_path_str := group 2 m in
  let img_path :=
    match base_path with
    | Some b => path_join b img_path_str
    | None => img_path_str
    end in
  let placeholder :=
    str "<figure class='missing-image'><div style='background:#f0f0f0; padding:40px; text-align:center; border:1px dashed #ccc;'>[Image: "
    ++ alt_text ++ str "]</div></figure>" in
  found ← call_exists img_path;
  if found : bool then
    data_uri ← image_to_data_uri img_path;
    match data_uri with
    | [] => mret placeholder
    | _ =>
        mret (str "<figure><img src='" ++ data_uri ++ str "' alt='" ++ alt_text
              ++ str "' style='max-width:100%; height:auto;'/><figcaption>" ++ alt_text
              ++ str "</figcaption></figure>")
    end
  else mret placeholder.

Definition markdown_to_html_internal (markdown : pystr)
    (base_path : option pystr) : outcome pystr :=
  let html := markdown in
  html ← re_sub_raising columns_re (process_columns base_path) html;
  html ← re_sub_raising inline_columns_re (process_inline_columns base_path) html;
  let html := re_sub anchored_header_re header_with_anchor html in
  let html := re_sub anchor_note_re erase html in
  html ← re_sub_raising image_re (replace_image base_path) html;
  let html := blockquotes html in
  let html := re_sub (plain_header_re (str "###")) (wrap (str "<h3>") (str "</h3>")) html in
  let html := re_sub (plain_header_re (str "##")) (wrap (str "<h2>") (str "</h2>")) html in
  let html := re_sub (plain_header_re (str "#")) (wrap (str "<h1>") (str "</h1>")) html in
  let html :=
    re_sub bold_italic_re (wrap (str "<strong><em>") (str "</em></strong>")) html in
  let html := re_sub bold_re (wrap (str "<strong>") (str "</strong>")) html in
  let html := re_sub italic_re (wrap (str "<em>") (str "</em>")) html in
  let html := re_sub link_re link_html html in
  let html := re_sub rule_re (fun _ => str "<hr/>") html in
  let html := tables html in
  let html := lists html in
  mret (paragraphs html).

Definition markdown_to_html (markdown : pystr) (base_path : option pystr)
    (include_toc : bool) : outcome pystr :=
  '(toc_html, markdown) ←
    (if include_toc then
       let '(toc_md, markdown) := generate_toc markdown in
       match toc_md with
       | [] => mret ([], markdown)
       | _ =>
           toc_html ← markdown_to_html_internal toc_md base_path;
           mret (str "<nav class='toc'>" ++ toc_html ++ str "</nav>", markdown)
       end
     else mret ([], markdown));
  content_html ← markdown_to_html_internal markdown base_path;
  mret (toc_html ++ content_html).

Definition images_step (images_html : pystr) (e : nat * descriptor) : outcome pystr :=
  let '(i, img) := e in
  let img_path := d_path img in
  found ← call_exists img_path;
  if found : bool then
    if str_eqb (str_lower (path_suffix img_path)) (str ".svg") then
      data_uri ← svg_to_data_uri img_path;
      mret (images_html ++ figure_block (str "Figure") data_uri i img)
    else mret images_html
  else mret images_html.

Definition images_section (images : list descriptor) : outcome pystr :=
  match images with
  | [] => mret []
  | _ =>
      images_html ← fold_raising images_step (enumerate images)
                      (str "<div class='images-section'><h2>Figures</h2>");
      mret (images_html ++ str "</div>")
  end.

Definition diagrams_step (diagrams_html : pystr) (e : nat * descriptor)
    : outcome pystr :=
  let '(i, diag) := e in
  let diag_path := d_path diag in
  found ← call_exists diag_path;
  if found : bool then
    if str_eqb (str_lower (path_suffix diag_path)) (str ".svg") then
      data_uri ← svg_to_data_uri diag_path;
      mret (diagrams_html ++ figure_block (str "Diagram") data_uri i diag)
    else mret diagrams_html
  else mret diagrams_html.

Definition diagrams_section (diagrams : list descriptor) : outcome pystr :=
  match diagrams with
  | [] => mret []
  | _ =>
      diagrams_html ← fold_raising diagrams_step (enumerate diagrams)
                        (str "<div class='diagrams-section'><h2>Diagrams</h2>");
      mret (diagrams_html ++ str "</div>")
  end.

Definition generate_html_report (head title date author content : pystr)
    (images diagrams : list descriptor) (base_path : option pystr) : outcome pystr :=
  content_html ← markdown_to_html content base_path true;
  images_html ← images_section images;
  diagrams_html ← diagrams_section diagrams;
  mret (head ++ str "<body>\n    <h1>" ++ title
        ++ str "</h1>\n    <div class='metadata'>\n        <p>Date: "
        ++ date ++ str " | Author: " ++ author
        ++ str "</p>\n    </div>\n    <div class='content'>\n        " ++ content_html
        ++ str "\n    </div>\n    " ++ diagrams_html ++ str "\n    " ++ images_html
        ++ str "\n</body>\n</html>").

End Functions.
End Raising.


(** Two values of [errno] on Linux. *)
Definition ENAMETOOLONG : Z := 36.
Definition EISDIR : Z := 21.

(** A file system that holds the files of [F] and the directories
    [dirs]; it refuses a name of more than 255 characters with
    ENAMETOOLONG and the reading of a directory with EISDIR. *)
Definition refusing (F : FileSystem) (dirs : list pystr) : Calls :=
  {| call_exists := fun p =>
       if 255 <? length (last_component p) then Raises ENAMETOOLONG
       else Returns (path_exists p || bool_decide (p ∈ dirs));
     call_read_bytes := fun p =>
       if bool_decide (p ∈ dirs) then Raises EISDIR
       else Returns (read_bytes p) |}.

(** A file name of 304 characters. *)
Definition long_name : pystr := repeat_str (str "a") 300 ++ str ".svg".

(** ** Definitions the statements about the calls use *)

Section RaisingStatements.
Context {U : Unicode} {F : FileSystem} {C : Calls}.

(** The head of the data URI for an embeddable suffix. *)
Definition data_uri_head (suffix : pystr) : pystr :=
  if str_eqb suffix (str ".svg") then str "data:image/svg+xml;base64,"
  else if str_eqb suffix (str ".jpg") || str_eqb suffix (str ".jpeg")
  then str "data:image/jpeg;base64,"
  else if str_eqb suffix (str ".png") then str "data:image/png;base64,"
  else if str_eqb suffix (str ".gif") then str "data:image/gif;base64,"
  else str "data:image/webp;base64,".



End RaisingStatements.
(** * Properties *)

(** ** The matcher *)

Ltac eval_str :=
  repeat match goal with
  | |- context [str ?s] =>
      let v := eval vm_compute in (str s) in change (str s) with v
  | |- context [code ?a] =>
      let v := eval vm_compute in (code a) in change (code a) with v
  end.
Lemma cursor_eta (x : cursor) : Cursor (prev x) (rest x) (caps x) = x.
Proof. by destruct x. Qed.

Lemma last_or_cons c l pv : last_or (c :: l) pv = last_or l (Some c).
Proof. destruct l; [done|]. reflexivity. Qed.

Lemma startswith_spec (p s : pystr) :
  startswith p s = true <-> exists r, s = p ++ r.
Proof.
  revert s. induction p as [|a p IH]; intros s; simpl.
  - split; [by exists s | done].
  - destruct s as [|b s]; [split; [done | by intros [r Hr]] |].
    rewrite andb_true_iff, Z.eqb_eq, IH. split.
    + intros [-> [r ->]]. by exists r.
    + intros [r Hr]. injection Hr as -> ->. split; [done | by exists r].
Qed.

Lemma run_Lit {R} (l : pystr) (k : cursor -> option R) (x : cursor) :
  run (Lit l) k x
  = if startswith l (rest x)
    then k (Cursor (last_or l (prev x)) (drop (length l) (rest x)) (caps x))
    else None.
Proof.
  destruct x as [pv s cs]. cbn [prev rest caps]. revert k pv s.
  induction l as [|c l IH]; intros k pv s.
  - reflexivity.
  - destruct l as [|c' l].
    + cbn. destruct s as [|b s]; [done |].
      rewrite andb_true_r. destruct (c =? b)%Z eqn:E; [| done].
      apply Z.eqb_eq in E. by subst.
    + change (Lit (c :: c' :: l)) with (Chr (Z.eqb c) >> Lit (c' :: l)).
      cbn [run rest caps prev]. destruct s as [|b s]; [done |].
      change (startswith (c :: c' :: l) (b :: s))
        with ((c =? b)%Z && startswith (c' :: l) s).
      destruct (c =? b)%Z eqn:E; [| done].
      rewrite IH. cbn [andb]. apply Z.eqb_eq in E. subst b.
      destruct (startswith (c' :: l) s); [| done]. reflexivity.
Qed.


Lemma upto_from (c : Z) (s : pystr) : upto c s ++ from c s = s.
Proof.
  induction s as [|x s IH]; [done |]. simpl.
  destruct (x =? c)%Z; [done |]. simpl. by rewrite IH.
Qed.

Lemma from_head (c : Z) (s : pystr) :
  from c s = [] \/ exists r, from c s = c :: r.
Proof.
  induction s as [|x s IH]; [by left |]. simpl.
  destruct (x =? c)%Z eqn:E; [| done].
  apply Z.eqb_eq in E. subst. right. by eexists.
Qed.

Lemma upto_free (c : Z) (s : pystr) : c ∉ upto c s.
Proof.
  induction s as [|x s IH]; simpl; [apply not_elem_of_nil |].
  destruct (x =? c)%Z eqn:E; [apply not_elem_of_nil |].
  apply Z.eqb_neq in E. rewrite elem_of_cons. intros [-> | H]; done.
Qed.

Lemma from_length (c : Z) (s : pystr) : length (from c s) <= length s.
Proof.
  induction s as [|x s IH]; simpl; [lia |].
  destruct (x =? c)%Z; simpl; lia.
Qed.

Lemma take_upto (c : Z) (s : pystr) :
  take (length s - length (from c s)) s = upto c s.
Proof.
  rewrite <- (upto_from c s) at 1 3. rewrite length_app.
  replace (length (upto c s) + length (from c s) - length (from c s))
    with (length (upto c s)) by lia.
  by rewrite take_app_length.
Qed.

(** A greedy run of characters other than [c], in front of a
    continuation that demands [c], stops at the first [c]. *)
Lemma rep_until {R} (p : Z -> bool) (c : Z) (lo : nat) (cs : list (nat * pystr))
    (k : cursor -> option R) (pv : option Z) (s : pystr) :
  (forall x, p x = negb (x =? c)%Z) ->
  demands c k ->
  rep p true lo None cs k pv s
  = if lo <=? length (upto c s)
    then k (Cursor (last_or (upto c s) pv) (from c s) cs)
    else None.
Proof.
  intros Hp Hk. revert lo pv. induction s as [|x s IH]; intros lo pv.
  - cbn. by destruct lo.
  - cbn [rep upto from]. rewrite Hp. cbn [room].
    destruct (x =? c)%Z eqn:E; cbn [negb andb length].
    + by destruct lo.
    + rewrite IH. rewrite last_or_cons.
      assert (Hstop : match lo with
                      | 0 => k (Cursor pv (x :: s) cs)
                      | S _ => None
                      end = None).
      { destruct lo; [| done].
        destruct (k (Cursor pv (x :: s) cs)) eqn:Ek; [| done].
        destruct (Hk (Cursor pv (x :: s) cs)) as [t Ht]; [by rewrite Ek |].
        cbn in Ht. injection Ht as -> _. by rewrite Z.eqb_refl in E. }
      rewrite Hstop.
      replace (lo <=? S (length (upto c s))) with (pred lo <=? length (upto c s)).
      2:{ destruct lo; [done |]. reflexivity. }
      destruct (_ <=? _); [| done]. clear Hstop.
      by match goal with |- match ?e with _ => _ end = _ => destruct e end.
Qed.


Lemma demands_Lit {R} (c : Z) (l : pystr) (k : cursor -> option R) :
  demands c (run (Lit (c :: l)) k).
Proof.
  intros x. rewrite run_Lit.
  destruct (startswith (c :: l) (rest x)) eqn:E; [| by intros [? ?]].
  apply startswith_spec in E as [r ->]. intros _. by eexists.
Qed.

(** A group around such a run. *)
Lemma run_Grp_until {R} (i : nat) (p : Z -> bool) (c : Z) (lo : nat)
    (k : cursor -> option R) (x : cursor) :
  (forall y, p y = negb (y =? c)%Z) ->
  demands c k ->
  run (Grp i (Rep p lo None true)) k x
  = if lo <=? length (upto c (rest x))
    then k (Cursor (last_or (upto c (rest x)) (prev x)) (from c (rest x))
              ((i, upto c (rest x)) :: caps x))
    else None.
Proof.
  intros Hp Hk. cbn [run].
  rewrite (rep_until p c); [| done |].
  - cbn [prev rest caps]. by rewrite take_upto.
  - intros y Hy. apply Hk in Hy. exact Hy.
Qed.

Lemma run_until {R} (p : Z -> bool) (c : Z) (lo : nat)
    (k : cursor -> option R) (x : cursor) :
  (forall y, p y = negb (y =? c)%Z) ->
  demands c k ->
  run (Rep p lo None true) k x
  = if lo <=? length (upto c (rest x))
    then k (Cursor (last_or (upto c (rest x)) (prev x)) (from c (rest x)) (caps x))
    else None.
Proof. intros Hp Hk. cbn [run]. by rewrite (rep_until p c). Qed.

Lemma run_Seq {R} (a b : re) (k : cursor -> option R) :
  run (a >> b) k = run a (run b k).
Proof. reflexivity. Qed.

Lemma not_chr (a : ascii) (y : Z) : none_of (chr a) y = negb (y =? code a)%Z.
Proof. reflexivity. Qed.

(** The image pattern reads what [img] reads. *)
Lemma run_image {R} (k : cursor -> option R) (x : cursor) :
  run image_re k x
  = match img (rest x) with
    | Some (alt, path, r) =>
        k (Cursor (Some 41%Z) r ((2, path) :: (1, alt) :: caps x))
    | None => None
    end.
Proof.
  unfold image_re, star, plus, img. rewrite !run_Seq, run_Lit. eval_str.
  destruct (startswith [33; 91]%Z (rest x)); [| done].
  cbn [length prev rest caps].
  rewrite (run_Grp_until 1 _ 93%Z); [| apply not_chr | apply demands_Lit].
  match goal with |- context [0 <=? ?n] => change (0 <=? n) with true end.
  cbn [prev rest caps]. rewrite run_Lit. cbn [prev rest caps length].
  destruct (startswith [93; 40]%Z _); [| done].
  rewrite (run_Grp_until 2 _ 41%Z); [| apply not_chr | apply (demands_Lit 41 [])].
  cbn [prev rest caps].
  destruct (1 <=? _); [| done].
  rewrite run_Lit. cbn [prev rest caps length].
  by destruct (startswith [41%Z] _).
Qed.

Lemma run_image_nogroup {R} (k : cursor -> option R) (x : cursor) :
  run image_nogroup k x
  = match img (rest x) with
    | Some (alt, path, r) => k (Cursor (Some 41%Z) r (caps x))
    | None => None
    end.
Proof.
  unfold image_nogroup, star, plus, img. rewrite !run_Seq, run_Lit. eval_str.
  destruct (startswith [33; 91]%Z (rest x)); [| done].
  cbn [length prev rest caps].
  rewrite (run_until _ 93%Z); [| apply not_chr | apply demands_Lit].
  match goal with |- context [0 <=? ?n] => change (0 <=? n) with true end.
  cbn [prev rest caps]. rewrite run_Lit. cbn [prev rest caps length].
  destruct (startswith [93; 40]%Z _); [| done].
  rewrite (run_until _ 41%Z); [| apply not_chr | apply (demands_Lit 41 [])].
  cbn [prev rest caps].
  destruct (1 <=? _); [| done].
  rewrite run_Lit. cbn [prev rest caps length].
  by destruct (startswith [41%Z] _).
Qed.

Lemma upto_from_unique (c : Z) (a r : pystr) :
  c ∉ a -> upto c (a ++ c :: r) = a /\ from c (a ++ c :: r) = c :: r.
Proof.
  induction a as [|x a IH]; intros Hc; simpl.
  - by rewrite Z.eqb_refl.
  - apply not_elem_of_cons in Hc as [Hx Ha].
    destruct (x =? c)%Z eqn:E; [apply Z.eqb_eq in E; congruence |].
    destruct (IH Ha) as [-> ->]. done.
Qed.

(** [img] reads an exclamation mark, the alternative text in square
    brackets, free of [\]], and the path in round brackets, not empty
    and free of [)]. *)
Lemma img_spec (s a p r : pystr) :
  img s = Some (a, p, r)
  <-> s = [33; 91]%Z ++ a ++ [93; 40]%Z ++ p ++ [41%Z] ++ r
      /\ (93%Z ∉ a) /\ (41%Z ∉ p) /\ p <> [].
Proof.
  unfold img. split.
  - destruct (startswith [33; 91]%Z s) eqn:E1; [| done].
    apply startswith_spec in E1 as [s1 ->]. cbn [drop app]. rewrite drop_0.
    destruct (startswith [93; 40]%Z (from 93 s1)) eqn:E2; [| done].
    apply startswith_spec in E2 as [s2 E2]. rewrite E2. cbn [drop app].
    rewrite drop_0.
    destruct (1 <=? length (upto 41 s2)) eqn:E3; [| done].
    destruct (startswith [41%Z] (from 41 s2)) eqn:E4; [| done].
    apply startswith_spec in E4 as [s3 E4]. rewrite E4. cbn [drop app].
    rewrite drop_0.
    intros [= <- <- <-]. repeat split.
    + rewrite <- (upto_from 93 s1) at 1. rewrite E2.
      rewrite <- (upto_from 41 s2) at 1. rewrite E4. done.
    + apply upto_free.
    + apply upto_free.
    + intros H. by rewrite H in E3.
  - intros (-> & Ha & Hp & Hne). cbn [startswith app drop Z.eqb Pos.eqb andb].
    rewrite drop_0.
    destruct (upto_from_unique 93 a (40%Z :: p ++ 41%Z :: r) Ha) as [-> ->].
    cbn [startswith app drop Z.eqb Pos.eqb andb]. rewrite drop_0.
    destruct (upto_from_unique 41 p r Hp) as [-> ->].
    cbn [startswith app drop Z.eqb Pos.eqb andb]. rewrite drop_0.
    destruct p; [done |]. done.
Qed.
Lemma exec_image (pv : option Z) (s : pystr) :
  exec image_re pv s
  = match img s with
    | Some (alt, path, r) =>
        Some (Match (take (length s - length r) s) [(2, path); (1, alt)])
    | None => None
    end.
Proof.
  unfold exec. rewrite run_image. cbn [rest caps].
  by destruct (img s) as [[[a p] r]|].
Qed.

Lemma scan_skip (r : re) (pv : option Z) (w s : pystr) :
  scan r pv (w ++ s) (length w) = scan r (last_or w pv) s 0.
Proof.
  revert pv. induction w as [|c w IH]; intros pv; [done |].
  cbn [app length scan]. by rewrite IH, last_or_cons.
Qed.

Lemma scan_hit (r : re) (pv : option Z) (s w t : pystr) (m : rmatch) :
  exec r pv s = Some m -> whole m = w -> w <> [] -> s = w ++ t ->
  scan r pv s 0 = Hit m :: scan r (last_or w pv) t 0.
Proof.
  intros He Hw Hne ->. destruct w as [|c w]; [done |].
  cbn [app scan]. cbn [app] in He. rewrite He, Hw. cbn [length].
  by rewrite scan_skip, last_or_cons.
Qed.

Lemma scan_miss (r : re) (pv : option Z) (c : Z) (s : pystr) :
  exec r pv (c :: s) = None ->
  scan r pv (c :: s) 0 = Plain c :: scan r (Some c) s 0.
Proof. intros He. cbn [scan]. by rewrite He. Qed.
Lemma lookup_middle (pre post : pystr) (x : Z) :
  (pre ++ x :: post) !! length pre = Some x.
Proof. by rewrite list_lookup_middle. Qed.

Lemma lookup_free (pre a post : pystr) (c : Z) (i : nat) :
  c ∉ a -> (pre ++ a ++ post) !! i = Some c ->
  i < length pre \/ length pre + length a <= i.
Proof.
  intros Hc Hi.
  destruct (decide (i < length pre)) as [|Hge]; [by left | right].
  destruct (decide (length pre + length a <= i)) as [|Hlt]; [done |].
  exfalso. apply Hc.
  rewrite lookup_app_r in Hi by lia.
  rewrite lookup_app_l in Hi by lia.
  apply list_elem_of_lookup. eauto.
Qed.

(** Of two image references that begin in the same text, the one that
    begins later does not end earlier. *)
Lemma img_mono (s t a p r a' p' r' : pystr) :
  t `suffix_of` s ->
  img s = Some (a, p, r) -> img t = Some (a', p', r') ->
  r' `suffix_of` r.
Proof.
  intros [k Hk] Hs Ht.
  apply img_spec in Hs as (Es & Ha & Hp & Hne).
  apply img_spec in Ht as (Et & Ha' & Hp' & Hne').
  assert (Hr : r `suffix_of` s).
  { exists ([33; 91]%Z ++ a ++ [93; 40]%Z ++ p ++ [41%Z]).
    rewrite Es, <- !app_assoc. reflexivity. }
  assert (Hr' : r' `suffix_of` s).
  { exists (k ++ [33; 91]%Z ++ a' ++ [93; 40]%Z ++ p' ++ [41%Z]).
    rewrite Hk, Et, <- !app_assoc. reflexivity. }
  destruct (suffix_weak_total _ _ _ Hr' Hr) as [|Hrr']; [done |].
  (* otherwise [r] is strictly inside [r'] or equal *)
  destruct (decide (length r' <= length r)) as [Hle | Hgt].
  { destruct Hrr' as [q Hq]. rewrite Hq in Hle. rewrite length_app in Hle.
    destruct q; [by rewrite Hq | cbn in Hle; lia]. }
  exfalso.
  assert (Hlen : length s = 5 + length a + length p + length r).
  { rewrite Es. rewrite !length_app. cbn. lia. }
  assert (Hlen' : length s = length k + 5 + length a' + length p' + length r').
  { rewrite Hk, Et. rewrite !length_app. cbn. lia. }
  assert (Hp'len : 1 <= length p') by (destruct p'; [done | cbn; lia]).
  (* the closing bracket of the later reference *)
  assert (H41 : s !! (length k + 4 + length a' + length p') = Some 41%Z).
  { rewrite Hk, Et.
    replace (k ++ [33; 91]%Z ++ a' ++ [93; 40]%Z ++ p' ++ [41%Z] ++ r')
      with ((k ++ [33; 91]%Z ++ a' ++ [93; 40]%Z ++ p') ++ 41%Z :: r')
      by (by rewrite <- !app_assoc).
    replace (length k + 4 + length a' + length p')
      with (length (k ++ [33; 91]%Z ++ a' ++ [93; 40]%Z ++ p'))
      by (rewrite !length_app; cbn; lia).
    apply lookup_middle. }
  assert (H93 : s !! (length k + 2 + length a') = Some 93%Z).
  { rewrite Hk, Et.
    replace (k ++ [33; 91]%Z ++ a' ++ [93; 40]%Z ++ p' ++ [41%Z] ++ r')
      with ((k ++ [33; 91]%Z ++ a') ++ 93%Z :: (40%Z :: p' ++ [41%Z] ++ r'))
      by (by rewrite <- !app_assoc).
    replace (length k + 2 + length a')
      with (length (k ++ [33; 91]%Z ++ a'))
      by (rewrite !length_app; cbn; lia).
    apply lookup_middle. }
  rewrite Es in H41, H93.
  replace ([33; 91]%Z ++ a ++ [93; 40]%Z ++ p ++ [41%Z] ++ r)
    with (([33; 91]%Z ++ a ++ [93; 40]%Z) ++ p ++ ([41%Z] ++ r)) in H41
    by (by rewrite <- !app_assoc).
  apply lookup_free in H41; [| done].
  rewrite !length_app in H41. cbn [length] in H41.
  apply (lookup_free [33; 91]%Z a) in H93; [| done].
  cbn [length] in H93.
  assert (length k <> 0).
  { intros Hk0. destruct k; [| done]. cbn in *. lia. }
  lia.
Qed.
Lemma scan_image_pv (pv pv' : option Z) (s : pystr) (n : nat) :
  scan image_re pv s n = scan image_re pv' s n.
Proof.
  revert pv pv' n. induction s as [|c s IH]; intros pv pv' n.
  - destruct n; cbn [scan]; [| done]. by rewrite !exec_image.
  - destruct n; cbn [scan]; [| apply IH].
    rewrite !exec_image. done.
Qed.

Lemma img_rest_suffix (s a p r : pystr) :
  img s = Some (a, p, r) -> r `suffix_of` s /\ length r < length s.
Proof.
  intros H. apply img_spec in H as (-> & _). split.
  - exists ([33; 91]%Z ++ a ++ [93; 40]%Z ++ p ++ [41%Z]).
    rewrite <- !app_assoc. reflexivity.
  - rewrite !length_app. cbn. lia.
Qed.

Lemma found_hit (s a p r : pystr) :
  img s = Some (a, p, r) ->
  found s = Match (take (length s - length r) s) [(2, p); (1, a)] :: found r.
Proof.
  intros H. unfold found.
  destruct (img_rest_suffix _ _ _ _ H) as [[w Hw] Hlen].
  rewrite (scan_hit image_re None s w r
             (Match (take (length s - length r) s) [(2, p); (1, a)])).
  - cbn [hits flat_map app]. f_equal. f_equal. apply scan_image_pv.
  - by rewrite exec_image, H.
  - cbn [whole]. rewrite Hw, length_app.
    replace (length w + length r - length r) with (length w) by lia.
    by rewrite take_app_length.
  - intros ->. cbn in Hw. subst. lia.
  - done.
Qed.

Lemma found_miss (c : Z) (s : pystr) :
  img (c :: s) = None -> found (c :: s) = found s.
Proof.
  intros H. unfold found. rewrite scan_miss by (by rewrite exec_image, H).
  cbn [hits flat_map app]. f_equal. apply scan_image_pv.
Qed.

Lemma found_nil : found [] = [].
Proof. reflexivity. Qed.

(** Induction along the scan. *)
Lemma found_ind (P : pystr -> Prop) :
  P [] ->
  (forall c s, img (c :: s) = None -> P s -> P (c :: s)) ->
  (forall s a p r, img s = Some (a, p, r) -> P r -> P s) ->
  forall s, P s.
Proof.
  intros Hnil Hmiss Hhit s.
  induction s as [s IH] using (induction_ltof1 _ (@length Z)). unfold ltof in IH.
  destruct (img s) as [[[a p] r]|] eqn:E.
  - apply (Hhit _ _ _ _ E). apply IH. by apply img_rest_suffix in E as [_ ?].
  - destruct s as [|c s]; [done |]. apply (Hmiss _ _ E). apply IH. cbn. lia.
Qed.

Lemma suffix_cons_cases (t : pystr) (c : Z) (s : pystr) :
  t `suffix_of` c :: s -> t = c :: s \/ t `suffix_of` s.
Proof.
  intros [k Hk]. destruct k as [|x k]; [by left | right].
  injection Hk as _ ->. by exists k.
Qed.

Lemma has_image_found (s : pystr) : has_image s <-> 1 <= length (found s).
Proof.
  induction s as [|c s Hm IH|s a p r Hh IH] using found_ind.
  - rewrite found_nil. cbn. split; [| lia].
    intros (t & Ht & Hi). apply suffix_nil_inv in Ht. subst. by destruct Hi.
  - rewrite (found_miss _ _ Hm), <- IH. split.
    + intros (t & Ht & Hi). exists t. split; [| done].
      apply suffix_cons_cases in Ht as [-> | Ht]; [| done].
      rewrite Hm in Hi. by destruct Hi.
    + intros (t & Ht & Hi). exists t. split; [by apply suffix_cons_r | done].
  - rewrite (found_hit _ _ _ _ Hh). cbn [length]. split; [lia |].
    intros _. exists s. split; [done | by rewrite Hh].
Qed.

Lemma has_two_images_found (s : pystr) :
  has_two_images s <-> 2 <= length (found s).
Proof.
  induction s as [|c s Hm IH|s a p r Hh IH] using found_ind.
  - rewrite found_nil. cbn. split; [| lia].
    intros (t & a & p & r & Ht & Hi & _). apply suffix_nil_inv in Ht. by subst.
  - rewrite (found_miss _ _ Hm), <- IH. split.
    + intros (t & a & p & r & Ht & Hi & H2). exists t, a, p, r.
      split; [| done].
      apply suffix_cons_cases in Ht as [-> | Ht]; [| done]. congruence.
    + intros (t & a & p & r & Ht & Hi & H2). exists t, a, p, r.
      split; [by apply suffix_cons_r | done].
  - rewrite (found_hit _ _ _ _ Hh). cbn [length].
    pose proof (has_image_found r) as Hr. split.
    + intros (t & a' & p' & r' & Ht & Hi & (t2 & Ht2 & Hi2)).
      assert (1 <= length (found r)); [apply Hr | lia].
      exists t2. split; [| done].
      pose proof (img_mono _ _ _ _ _ _ _ _ Ht Hh Hi) as Hmono.
      by transitivity r'.
    + intros H. exists s, a, p, r. split; [done |]. split; [done |].
      apply Hr. lia.
Qed.
Lemma is_Some_or {A} (a b : option A) :
  is_Some (match a with Some r => Some r | None => b end)
  <-> is_Some a \/ is_Some b.
Proof.
  destruct a; split; intros H; try (by left); try (by right); try done.
  - destruct H as [[? [=]] | H]; done.
Qed.

(** When a starred class succeeds: after some number of its
    characters the continuation succeeds. *)
Lemma rep_star_Some {R} (p : Z -> bool) (g : bool) (cs : list (nat * pystr))
    (k : cursor -> option R) (pv : option Z) (s : pystr) :
  is_Some (rep p g 0 None cs k pv s)
  <-> exists n, n <= length s /\ forallb p (take n s) = true
        /\ is_Some (k (Cursor (last_or (take n s) pv) (drop n s) cs)).
Proof.
  revert pv. induction s as [|c s IH]; intros pv.
  - cbn [rep]. transitivity (is_Some (k (Cursor pv [] cs))).
    { destruct g; [done |]. by destruct (k _). }
    split.
    + intros H. by exists 0.
    + intros (n & Hn & _ & H). by destruct n.
  - cbn [rep room andb pred less]. rewrite andb_true_r.
    transitivity (is_Some (k (Cursor pv (c :: s) cs))
                  \/ is_Some (if p c then rep p g 0 None cs k (Some c) s else None)).
    { destruct g; cbv iota.
      - etrans; [apply is_Some_or |]. apply or_comm.
      - apply is_Some_or. }
    split.
    + intros [H | H]; [exists 0; split; [cbn; lia | done] |].
      destruct (p c) eqn:Ep; [| by destruct H].
      apply IH in H as (n & Hn & Hall & H). exists (S n).
      cbn [take drop forallb length]. rewrite Ep, Hall, last_or_cons.
      split; [lia | done].
    + intros (n & Hn & Hall & H). destruct n as [|n]; [by left | right].
      cbn [take drop forallb length] in *. apply andb_true_iff in Hall as [-> Hall].
      apply IH. exists n. rewrite last_or_cons in H. split; [lia | done].
Qed.

Lemma rep_result {R} (p : Z -> bool) (g : bool) (lo : nat) (hi : option nat)
    (cs : list (nat * pystr)) (k : cursor -> option R) (pv : option Z)
    (s : pystr) (y : R) :
  rep p g lo hi cs k pv s = Some y ->
  exists pv' s', k (Cursor pv' s' cs) = Some y /\ s' `suffix_of` s.
Proof.
  revert lo hi pv. induction s as [|c s IH]; intros lo hi pv.
  - cbn [rep]. destruct g, lo; try done.
    + intros H. by exists pv, [].
    + destruct (k _) eqn:E; [| done]. intros [= <-]. by exists pv, [].
  - cbn [rep].
    assert (Hstop : match lo with 0 => k (Cursor pv (c :: s) cs) | S _ => None end
                    = Some y ->
                    exists pv' s', k (Cursor pv' s' cs) = Some y
                                   /\ s' `suffix_of` c :: s).
    { destruct lo; [| done]. intros H. by exists pv, (c :: s). }
    assert (Hmore : (if p c && room hi
                     then rep p g (pred lo) (less hi) cs k (Some c) s
                     else None) = Some y ->
                    exists pv' s', k (Cursor pv' s' cs) = Some y
                                   /\ s' `suffix_of` c :: s).
    { destruct (p c && room hi); [| done]. intros H.
      apply IH in H as (pv' & s' & H & Hs). exists pv', s'.
      split; [done | by apply suffix_cons_r]. }
    destruct g.
    + destruct (if p c && room hi then _ else _) eqn:E.
      * intros [= <-]. by apply Hmore.
      * apply Hstop.
    + destruct (match lo with 0 => _ | S _ => _ end) eqn:E.
      * intros [= <-]. by apply Hstop.
      * apply Hmore.
Qed.

(** A result of the matcher is a result of its continuation, at a
    position further on. *)
Lemma run_result {R} (r : re) (k : cursor -> option R) (x : cursor) (y : R) :
  run r k x = Some y ->
  exists x', k x' = Some y /\ rest x' `suffix_of` rest x.
Proof.
  revert k x. induction r; intros k x; cbn [run].
  - intros H. by exists x.
  - destruct (rest x) as [|c s'] eqn:E; [done |]. destruct (p c); [| done].
    intros H. eexists. split; [exact H |]. cbn. by apply suffix_cons_r.
  - intros H. apply rep_result in H as (pv' & s' & H & Hs). by eexists.
  - intros H. apply IHr1 in H as (x1 & H & Hs1).
    apply IHr2 in H as (x2 & H & Hs2). exists x2. split; [done | by etrans].
  - destruct (run r1 k x) eqn:E.
    + intros [= <-]. by apply IHr1.
    + apply IHr2.
  - intros H. apply IHr in H as (x1 & H & Hs). eexists. split; [exact H | done].
  - destruct (prev x); [| intros H; by exists x].
    destruct (_ && _); [| done]. intros H. by exists x.
  - destruct (rest x) as [|c s'] eqn:E; [intros H; exists x; by rewrite E |].
    destruct (_ && _); [| done]. intros H. exists x. by rewrite E.
  - destruct (prev x) as [c|]; [| intros H; by exists x].
    destruct (p c); [done |]. intros H. by exists x.
  - destruct (rest x) as [|c s'] eqn:E; [intros H; exists x; by rewrite E |].
    destruct (p c); [done |]. intros H. exists x. by rewrite E.
Qed.
Lemma forallb_dot_take (s : pystr) (n : nat) :
  nl ∉ s -> forallb dot (take n s) = true.
Proof.
  intros Hs. apply forallb_forall. intros c Hc. apply list_elem_of_In in Hc.
  apply elem_of_take in Hc as (i & Hi & _).
  unfold dot. apply negb_true_iff, Z.eqb_neq. intros ->.
  apply Hs. apply list_elem_of_lookup. eauto.
Qed.

Lemma not_in_suffix (c : Z) (t s : pystr) : t `suffix_of` s -> c ∉ s -> c ∉ t.
Proof. intros [k ->] Hs Ht. apply Hs. apply elem_of_app. by right. Qed.

Lemma run_Eol_Some (x : cursor) (y : cursor) :
  run (Eol true) Some x = Some y ->
  y = x /\ (rest x = [] \/ exists t, rest x = nl :: t).
Proof.
  cbn [run]. destruct (rest x) as [|c t] eqn:E.
  - intros [= <-]. split; [done | by left].
  - cbn [orb andb]. rewrite andb_true_r.
    destruct (c =? nl)%Z eqn:Ec; [| done].
    apply Z.eqb_eq in Ec. subst c. intros [= <-]. split; [done | right; by eexists].
Qed.

(** The pattern of lines with two images, tried at the start of a
    text with no line feed: it succeeds exactly when two image
    references that do not overlap begin in the text. *)
Lemma exec_inline_iff (line : pystr) :
  nl ∉ line ->
  is_Some (exec inline_columns_re None line) <-> has_two_images line.
Proof.
  intros Hnl. unfold exec, inline_columns_re, star.
  rewrite !run_Seq. cbn [run prev].
  transitivity (is_Some (rep dot true 0 None []
    (run image_nogroup (run (Rep dot 0 None true)
       (run image_nogroup (run (Rep dot 0 None true) (run (Eol true) Some)))))
    None line)).
  { cbn [caps rest]. by destruct (rep _ _ _ _ _ _ _ _). }
  rewrite rep_star_Some. split.
  - intros (n1 & Hn1 & _ & H1). rewrite run_image_nogroup in H1. cbn [rest caps] in H1.
    destruct (img (drop n1 line)) as [[[a p] r1]|] eqn:E1; [| by destruct H1].
    cbn [run rest caps prev] in H1. apply rep_star_Some in H1 as (n2 & Hn2 & _ & H2).
    rewrite run_image_nogroup in H2. cbn [rest caps] in H2.
    destruct (img (drop n2 r1)) as [[[a2 p2] r2]|] eqn:E2; [| by destruct H2].
    exists (drop n1 line), a, p, r1. split; [apply suffix_drop |]. split; [done |].
    exists (drop n2 r1). split; [apply suffix_drop | by rewrite E2].
  - intros (t1 & a & p & r1 & [k1 Hk1] & E1 & (t2 & [k2 Hk2] & E2)).
    destruct E2 as [[[a2 p2] r2] E2].
    exists (length k1). split; [rewrite Hk1, length_app; lia |].
    split; [by apply forallb_dot_take |].
    rewrite run_image_nogroup. cbn [rest caps].
    rewrite Hk1 at 1. rewrite drop_app_length, E1.
    cbn [run rest caps prev]. apply rep_star_Some.
    exists (length k2). split; [rewrite Hk2, length_app; lia |].
    assert (Hr1 : nl ∉ r1).
    { apply img_rest_suffix in E1 as [Hs _].
      eapply not_in_suffix; [exact Hs |].
      eapply not_in_suffix; [| exact Hnl]. by exists k1. }
    split; [by apply forallb_dot_take |].
    rewrite run_image_nogroup. cbn [rest caps].
    rewrite Hk2 at 1. rewrite drop_app_length, E2.
    cbn [run rest caps prev]. apply rep_star_Some.
    exists (length r2). split; [lia |].
    assert (Hr2 : nl ∉ r2).
    { apply img_rest_suffix in E2 as [Hs _].
      eapply not_in_suffix; [exact Hs |].
      eapply not_in_suffix; [| exact Hr1]. by exists k2. }
    split; [by apply forallb_dot_take |].
    rewrite drop_all. done.
Qed.

Lemma exec_inline_whole (line : pystr) (m : rmatch) :
  nl ∉ line -> exec inline_columns_re None line = Some m -> whole m = line.
Proof.
  intros Hnl. unfold exec.
  destruct (run inline_columns_re Some (Cursor None line [])) as [y|] eqn:E; [| done].
  intros [= <-]. cbn [whole].
  unfold inline_columns_re in E. rewrite !run_Seq in E.
  do 6 (apply run_result in E as (? & E & ?)).
  apply run_Eol_Some in E as [-> [Hr | [t Hr]]].
  - rewrite Hr. cbn [length]. rewrite Nat.sub_0_r. apply firstn_all.
  - exfalso. apply Hnl.
    match goal with H : rest ?x = nl :: t |- _ =>
      assert (Hs : rest x `suffix_of` line) end.
    { cbn [rest] in *. repeat (etrans; [eassumption |]). done. }
    destruct Hs as [k ->]. rewrite Hr. apply elem_of_app. right. left.
Qed.

Lemma exec_inline_mid (c : Z) (s : pystr) :
  c <> nl -> exec inline_columns_re (Some c) s = None.
Proof.
  intros Hc. unfold exec, inline_columns_re. rewrite !run_Seq. cbn [run prev].
  apply Z.eqb_neq in Hc. by rewrite Hc.
Qed.
Lemma sub_plain (f : rmatch -> pystr) (s : pystr) :
  flat_map (fun p => match p with Plain c => [c] | Hit m => f m end) (map Plain s) = s.
Proof. induction s as [|c s IH]; [done |]. cbn. by rewrite IH. Qed.

Lemma scan_inline_plain (c : Z) (s : pystr) :
  c <> nl -> nl ∉ s -> scan inline_columns_re (Some c) s 0 = map Plain s.
Proof.
  revert c. induction s as [|x s IH]; intros c Hc Hs.
  - cbn [scan]. by rewrite exec_inline_mid.
  - apply not_elem_of_cons in Hs as [Hx Hs].
    rewrite scan_miss by (by apply exec_inline_mid).
    cbn [map]. f_equal. apply IH; [congruence | done].
Qed.

Lemma list_last_in (s : pystr) (x d : Z) : List.last (x :: s) d ∈ x :: s.
Proof.
  revert x. induction s as [|y s IH]; intros x; [left |].
  right. apply IH.
Qed.

Lemma last_or_in (s : pystr) (pv : option Z) (c : Z) :
  s <> [] -> last_or s pv = Some c -> c ∈ s.
Proof.
  intros Hne. destruct s as [|x s]; [done |]. cbn [last_or].
  intros [= <-]. apply list_last_in.
Qed.

(** [re.sub] with the pattern of lines with two images, on a text
    with no line feed. *)
Lemma sub_inline_line (f : rmatch -> pystr) (line : pystr) :
  nl ∉ line ->
  re_sub inline_columns_re f line
  = match exec inline_columns_re None line with
    | Some m => f m
    | None => line
    end.
Proof.
  intros Hnl. unfold re_sub.
  destruct (exec inline_columns_re None line) as [m|] eqn:E.
  - pose proof (exec_inline_whole _ _ Hnl E) as Hw.
    assert (Hne : line <> []).
    { intros ->. assert (H : has_two_images []).
      { apply exec_inline_iff; [done | by rewrite E]. }
      destruct H as (t & a & p & r & Ht & Hi & _).
      apply suffix_nil_inv in Ht. by subst. }
    rewrite (scan_hit _ _ line line [] m E Hw Hne) by (by rewrite app_nil_r).
    destruct (last_or line None) as [c|] eqn:El.
    2:{ by destruct line. }
    cbn [scan]. rewrite exec_inline_mid.
    + cbn. by rewrite app_nil_r.
    + intros ->. apply Hnl. by eapply last_or_in.
  - destruct line as [|c s]; [cbn [scan]; by rewrite E |].
    apply not_elem_of_cons in Hnl as [Hc Hs].
    rewrite scan_miss by done. rewrite scan_inline_plain by done.
    cbn [flat_map app]. by rewrite sub_plain.
Qed.

Lemma findall_length (s : pystr) :
  length (re_findall2 image_re s) = length (found s).
Proof. unfold re_findall2, re_finditer, found. by rewrite length_map. Qed.
Lemma b64_char_safe (n : Z) : b64_char n <> 93%Z.
Proof.
  unfold b64_char.
  destruct (nth_in_or_default (Z.to_nat n) b64_alphabet 61%Z) as [H | ->]; [| done].
  intros E. rewrite E in H. vm_compute in H. intuition discriminate.
Qed.

Lemma b64encode_safe (bs : list Z) : 93%Z ∉ b64encode bs.
Proof.
  induction bs as [bs IH] using (induction_ltof1 _ (@length Z)). unfold ltof in IH.
  destruct bs as [|a [|b [|c bs]]]; cbn [b64encode].
  - apply not_elem_of_nil.
  - rewrite !not_elem_of_cons.
    repeat split; try (apply not_eq_sym, b64_char_safe); try done.
    apply not_elem_of_nil.
  - rewrite !not_elem_of_cons.
    repeat split; try (apply not_eq_sym, b64_char_safe); try done.
    apply not_elem_of_nil.
  - rewrite not_elem_of_app, !not_elem_of_cons.
    repeat split; try (apply not_eq_sym, b64_char_safe); try done.
    + apply not_elem_of_nil.
    + apply IH. cbn. lia.
Qed.

Lemma literal_safe (s : string) :
  forallb (fun c => negb (c =? 93)%Z) (str s) = true -> 93%Z ∉ str s.
Proof.
  intros H Hin. apply list_elem_of_In in Hin.
  rewrite forallb_forall in H. apply H in Hin. by rewrite Z.eqb_refl in Hin.
Qed.

Ltac safe :=
  repeat first
    [ apply not_elem_of_nil
    | apply literal_safe; vm_compute; reflexivity
    | apply b64encode_safe
    | assumption
    | rewrite not_elem_of_app; split ].

Section Columns.
Context {U : Unicode} {F : FileSystem}.

Lemma data_uri_safe (p : pystr) : 93%Z ∉ image_to_data_uri p.
Proof. unfold image_to_data_uri. repeat case_match; safe. Qed.

Lemma column_item_safe (bp : option pystr) (acc alt p : pystr) :
  93%Z ∉ acc -> 93%Z ∉ alt -> 93%Z ∉ column_item bp acc (alt, p).
Proof.
  intros Hacc Halt. unfold column_item.
  destruct (path_exists _); [| done].
  destruct (image_to_data_uri _) eqn:E; [done |]. rewrite <- E.
  pose proof (data_uri_safe (match bp with Some b => path_join b p | None => p end)).
  safe.
Qed.

Lemma column_group_safe (bp : option pystr) (images : list (pystr * pystr)) :
  Forall (fun i => 93%Z ∉ fst i) images -> 93%Z ∉ column_group bp images.
Proof.
  intros H. unfold column_group. rewrite not_elem_of_app. split; [| safe].
  assert (Hi : 93%Z ∉ str "<div class='image-columns'>") by safe.
  revert Hi. generalize (str "<div class='image-columns'>").
  induction H as [|[alt p] images Ha _ IH]; intros acc Hacc; [done |].
  cbn [fold_left]. apply IH. by apply column_item_safe.
Qed.

End Columns.

Lemma found_alt_safe (s : pystr) :
  Forall (fun i => 93%Z ∉ fst i) (re_findall2 image_re s).
Proof.
  unfold re_findall2, re_finditer. change (hits (scan image_re None s 0)) with (found s).
  induction s as [|c s Hm IH|s a p r Hh IH] using found_ind.
  - constructor.
  - by rewrite (found_miss _ _ Hm).
  - rewrite (found_hit _ _ _ _ Hh). cbn [map]. constructor; [| done].
    cbn. apply img_spec in Hh. tauto.
Qed.

Lemma img_bracket (t a p r : pystr) : img t = Some (a, p, r) -> 93%Z ∈ t.
Proof.
  intros H. apply img_spec in H as (-> & _).
  rewrite !elem_of_app. right. right. left. left.
Qed.

Lemma scan_image_plain (pv : option Z) (s : pystr) :
  93%Z ∉ s -> scan image_re pv s 0 = map Plain s.
Proof.
  revert pv. induction s as [|c s IH]; intros pv Hs.
  - cbn [scan]. by rewrite exec_image.
  - assert (Hi : img (c :: s) = None).
    { destruct (img (c :: s)) as [[[a p] r]|] eqn:E; [| done].
      by apply img_bracket in E. }
    rewrite scan_miss by (by rewrite exec_image, Hi).
    cbn [map]. f_equal. apply IH. by apply not_elem_of_cons in Hs as [_ ?].
Qed.

(** A text with no closing square bracket holds no image reference:
    [re.findall] finds none and the substitution of images leaves the
    text as it is. *)
Lemma no_bracket_no_image (s : pystr) :
  93%Z ∉ s ->
  re_findall2 image_re s = []
  /\ forall f, re_sub image_re f s = s.
Proof.
  intros Hs. unfold re_findall2, re_finditer, re_sub.
  rewrite scan_image_plain by done. split.
  - clear Hs. induction s as [|c s IH]; [done |]. apply IH.
  - intros f. apply sub_plain.
Qed.

Section Inline.
Context {U : Unicode} {F : FileSystem}.

(** The pass over a single line: the line is replaced by a column
    group when [re.findall] finds two images or more in it, and is
    left as it is otherwise. *)
Lemma inline_columns_line (bp : option pystr) (line : pystr) :
  nl ∉ line ->
  re_sub inline_columns_re (process_inline_columns bp) line
  = if length (re_findall2 image_re line) <? 2 then line
    else column_group bp (re_findall2 image_re line).
Proof.
  intros Hnl. rewrite sub_inline_line by done.
  destruct (exec inline_columns_re None line) as [m|] eqn:E.
  - unfold process_inline_columns. by rewrite (exec_inline_whole _ _ Hnl E).
  - assert (Hn : ~ has_two_images line).
    { intros H. apply exec_inline_iff in H; [| done]. rewrite E in H. by destruct H. }
    rewrite has_two_images_found, <- findall_length in Hn.
    destruct (Nat.ltb_spec (length (re_findall2 image_re line)) 2); [done | lia].
Qed.

End Inline.

(** ** The end-to-end example *)

(** C1.  On the example of the specification, with the contents list
    switched on, [markdown_to_html] returns exactly [example_output]:
    a [nav] container of class [toc] whose one entry links to
    [#intro], the header [<h2 id="intro">Intro</h2>], the paragraph
    with [<strong>world</strong>], and a table with the header cells A
    and B and the single body row 1, 2.  This holds whatever the
    Unicode tables, the disk and the base path are. *)
Theorem end_to_end_example `{U : Unicode} `{F : FileSystem} (base_path : option pystr) :
  markdown_to_html example_input base_path true = example_output.
Proof. vm_compute. reflexivity. Qed.

(** ** Anchors that collide *)

(** C3.  The document [## A], [## A], [## A-1] is rewritten with the
    anchor [a-1] on two of its headers: the second header is the first
    collision of the slug [a], and the third header derives [a-1] as
    its own slug, which [header_counts] has never seen. *)
Theorem suffixed_anchor_not_reserved `{U : Unicode} :
  snd (generate_toc (str "## A\n## A\n## A-1"))
  = str "## A {#a}\n## A {#a-1}\n## A-1 {#a-1}".
Proof. vm_compute. reflexivity. Qed.

(** ** Images that are missing *)

(** C5.  On a disk with no file, a line with two image references and
    an explicit column span are both turned into an empty column
    group: the references leave no placeholder and their alternative
    texts are lost.  The single reference does get the placeholder. *)
Theorem missing_images_in_columns `{U : Unicode} :
  let F := disk [] in
  markdown_to_html_internal (str "![first](x.png) ![second](y.png)") None
  = str "<div class='image-columns'></div>"
  /\ markdown_to_html_internal
       (str "<!-- columns -->\n![first](x.png)\n<!-- /columns -->") None
     = str "<div class='image-columns'></div>"
  /\ markdown_to_html_internal (str "![first](x.png)") None
     = str "<figure class='missing-image'><div style='background:#f0f0f0; padding:40px; text-align:center; border:1px dashed #ccc;'>[Image: first]</div></figure>".
Proof. vm_compute. repeat split; reflexivity. Qed.

(** ** Tables *)

Lemma convert_table_one (l : pystr) : convert_table [l] = l.
Proof. reflexivity. Qed.

Lemma convert_table_two (h sep : pystr) : convert_table [h; sep] = empty_table h.
Proof.
  unfold convert_table, empty_table.
  change (length [h; sep] <? 2) with false.
  cbn [hd drop flat_map app]. reflexivity.
Qed.

(** From a state outside a table, the loop on a run of one row line
    and on a run of two, up to the line that ends the run and up to
    the end of the input. *)
Lemma table_run_steps (st : table_state) (l1 l2 next : pystr) :
  table_buffer st = [] ->
  is_table_row (strip l1) = true ->
  is_table_row (strip l2) = true ->
  is_table_row (strip next) = false ->
  table_step (table_step st l1) next
  = TableState (t_result_lines st ++ [strip l1] ++ [next]) [] false
  /\ table_flush (table_step st l1) = t_result_lines st ++ [strip l1]
  /\ table_step (table_step (table_step st l1) l2) next
     = TableState (t_result_lines st ++ [empty_table (strip l1)] ++ [next]) [] false
  /\ table_flush (table_step (table_step st l1) l2)
     = t_result_lines st ++ [empty_table (strip l1)].
Proof.
  intros Hb H1 H2 Hn.
  rewrite <- convert_table_two with (sep := strip l2).
  rewrite <- (convert_table_one (strip l1)) at 1 2.
  unfold table_step, table_flush. rewrite H1. cbn [table_buffer in_table t_result_lines].
  rewrite H2, Hn, Hb. cbn [table_buffer in_table t_result_lines app].
  repeat split.
Qed.


(** ** Paragraphs *)

Lemma lstrip_spec (s : pystr) :
  exists a, s = a ++ lstrip s /\ forallb is_space a = true.
Proof.
  induction s as [|c s IH]; [by exists [] |].
  simpl. destruct (is_space c) eqn:E.
  - destruct IH as (a & Ha & Hs). exists (c :: a). simpl.
    rewrite E, Hs. split; [by f_equal | done].
  - by exists [].
Qed.

Lemma forallb_rev {A} (p : A -> bool) (l : list A) :
  forallb p (rev l) = forallb p l.
Proof.
  induction l as [|x l IH]; [done |].
  simpl. rewrite forallb_app, IH. simpl. rewrite andb_true_r. apply andb_comm.
Qed.

Lemma rstrip_spec (s : pystr) :
  exists b, s = rstrip s ++ b /\ forallb is_space b = true.
Proof.
  unfold rstrip. destruct (lstrip_spec (rev s)) as (a & Ha & Hs).
  exists (rev a). rewrite forallb_rev. split; [| done].
  rewrite <- rev_app_distr, <- Ha. by rewrite rev_involutive.
Qed.

(** [strip] removes white space at the two ends and nothing else. *)
Lemma strip_spec (s : pystr) :
  exists a b, s = a ++ strip s ++ b
    /\ forallb is_space a = true /\ forallb is_space b = true.
Proof.
  unfold strip. destruct (lstrip_spec s) as (a & Ha & Hsa).
  destruct (rstrip_spec (lstrip s)) as (b & Hb & Hsb).
  exists a, b. by rewrite <- Hb, <- Ha.
Qed.

Lemma block_tag_starts (s : pystr) :
  is_Some (re_match block_tag_re s) -> startswith (str "<") s = true.
Proof.
  unfold re_match, exec, block_tag_re. cbn [run prev rest caps].
  rewrite run_Lit. cbn [rest].
  destruct (startswith (str "<") s); [done | by intros [? ?]].
Qed.

Lemma paragraph_step_spec (acc : list pystr) (block : pystr) :
  paragraph_step acc block = acc ++ option_list (wrap_block block).
Proof.
  unfold paragraph_step, wrap_block.
  destruct (strip block) as [|c s] eqn:E; [by rewrite app_nil_r |].
  case_bool_decide as Hm.
  - by rewrite (block_tag_starts _ Hm).
  - by destruct (startswith (str "<") (c :: s)).
Qed.

Lemma paragraph_loop_spec (blocks acc : list pystr) :
  fold_left paragraph_step blocks acc = acc ++ omap wrap_block blocks.
Proof.
  revert acc. induction blocks as [|b blocks IH]; intros acc; simpl.
  - by rewrite app_nil_r.
  - rewrite IH, paragraph_step_spec, <- app_assoc. f_equal.
    by destruct (wrap_block b).
Qed.

(** C8, as amended.  The paragraph stage cuts the text at blank lines
    and treats each block by [wrap_block]: a block that is empty or
    all white space is dropped; a block whose trimmed text begins with
    [<] (any tag, recognized or not) is passed through trimmed; every
    other block becomes exactly one paragraph around its trimmed text.
    Trimming removes white space at the two ends only, so the line
    feeds inside a block stay as they are. *)
Theorem paragraph_wrapping (html : pystr) :
  paragraphs html
  = join (str "\n") (omap wrap_block (split_str (str "\n\n") html))
  /\ forall block, exists a b,
       block = a ++ strip block ++ b
       /\ forallb is_space a = true /\ forallb is_space b = true.
Proof.
  split; [| apply strip_spec].
  unfold paragraphs. by rewrite paragraph_loop_spec.
Qed.

(** C8 as stated fails: [span] is none of the recognized tags, and the
    block is passed through and not wrapped as a paragraph. *)
Lemma unrecognized_tag_not_wrapped :
  re_match block_tag_re (str "<span>note</span>") = None
  /\ paragraphs (str "<span>note</span>") = str "<span>note</span>"
  /\ paragraphs (str "<span>note</span>") <> str "<p><span>note</span></p>".
Proof. vm_compute. repeat split; congruence. Qed.

(** ** The collision policy of [generate_toc] *)

Lemma split_chr_cons (c : Z) (s : pystr) :
  exists w ws, split_chr c s = w :: ws.
Proof.
  destruct s as [|x s]; simpl; [by eexists _, _ |].
  destruct (x =? c)%Z; [by eexists _, _ |].
  destruct (split_chr c s); by eexists _, _.
Qed.

Lemma join_cons (sep x : pystr) (w : pystr) (ws : list pystr) :
  join sep (x :: w :: ws) = x ++ sep ++ join sep (w :: ws).
Proof. reflexivity. Qed.

Lemma join_split_chr (c : Z) (s : pystr) : join [c] (split_chr c s) = s.
Proof.
  induction s as [|x s IH]; [done |].
  cbn [split_chr]. destruct (split_chr_cons c s) as (w & ws & Hs).
  rewrite Hs in *. destruct (x =? c)%Z eqn:E.
  - apply Z.eqb_eq in E. subst x. rewrite join_cons, IH. done.
  - rewrite <- IH. by destruct ws.
Qed.

Section Collisions.
Context {U : Unicode}.

Lemma collisions_snoc_same (seen : list pystr) (s : pystr) :
  collisions (seen ++ [s]) s = S (collisions seen s).
Proof.
  unfold collisions. rewrite filter_app, length_app.
  rewrite filter_cons_True by done. simpl. lia.
Qed.

Lemma collisions_snoc_other (seen : list pystr) (s t : pystr) :
  s <> t -> collisions (seen ++ [s]) t = collisions seen t.
Proof.
  intros Hne. unfold collisions. rewrite filter_app, length_app.
  rewrite filter_cons_False by congruence. simpl. lia.
Qed.

Lemma toc_step_spec (st : toc_state) (seen : list pystr) (line : pystr) :
  counts_of seen (header_counts st) ->
  exists seen',
    counts_of seen' (header_counts (toc_step st line))
    /\ toc_items (toc_step st line) = toc_items st ++ spec_items seen [line]
    /\ modified_lines (toc_step st line) = modified_lines st ++ spec_lines seen [line]
    /\ (forall rest, spec_items seen (line :: rest)
                     = spec_items seen [line] ++ spec_items seen' rest)
    /\ (forall rest, spec_lines seen (line :: rest)
                     = spec_lines seen [line] ++ spec_lines seen' rest).
Proof.
  intros Hc. unfold toc_step. cbn [spec_items spec_lines]. unfold header_of.
  destruct (re_match toc_header_re line) as [m|].
  - set (title := re_sub anchor_note_re erase (strip (group 2 m))).
    exists (seen ++ [slug title]).
    pose proof (Hc (slug title)) as Hs. unfold numbered.
    destruct (collisions seen (slug title)) as [|n] eqn:En; rewrite Hs;
      cbn [toc_items modified_lines header_counts]; (split; [| done]).
    + intros s. destruct (decide (slug title = s)) as [<- | Hne].
      * by rewrite lookup_insert_eq, collisions_snoc_same, En.
      * by rewrite lookup_insert_ne, collisions_snoc_other, Hc.
    + intros s. destruct (decide (slug title = s)) as [<- | Hne].
      * by rewrite lookup_insert_eq, collisions_snoc_same, En.
      * by rewrite lookup_insert_ne, collisions_snoc_other, Hc.
  - exists seen. cbn [toc_items modified_lines header_counts].
    by rewrite app_nil_r.
Qed.

Lemma toc_loop_spec (lines : list pystr) (st : toc_state) (seen : list pystr) :
  counts_of seen (header_counts st) ->
  toc_items (fold_left toc_step lines st) = toc_items st ++ spec_items seen lines
  /\ modified_lines (fold_left toc_step lines st)
     = modified_lines st ++ spec_lines seen lines.
Proof.
  revert st seen. induction lines as [|line lines IH]; intros st seen Hc.
  - cbn. by rewrite !app_nil_r.
  - cbn [fold_left].
    destruct (toc_step_spec st seen line Hc) as (seen' & Hc' & Hi & Hm & Ei & Em).
    destruct (IH _ _ Hc') as [IHi IHm].
    rewrite IHi, IHm, Hi, Hm, (Ei lines), (Em lines), <- !app_assoc. done.
Qed.

Lemma spec_lines_no_header (seen lines : list pystr) :
  spec_items seen lines = [] -> spec_lines seen lines = lines.
Proof.
  revert seen. induction lines as [|line lines IH]; intros seen; [done |].
  cbn [spec_items spec_lines]. destruct (header_of line) as [[h t]|]; [done |].
  intros H. by rewrite IH.
Qed.

(** C2.  [generate_toc] follows the collision policy: with [seen] the
    base slugs of the qualifying headers before a header, in document
    order, the header gets its base slug bare when [seen] does not hold
    it, and [slug-N] when [seen] holds it N times ([numbered]); this
    anchor is the one of its rewritten line ([spec_lines]) and of its
    entry in the contents list ([spec_items]). *)
Theorem collision_policy (markdown : pystr) :
  generate_toc markdown
  = (match spec_items [] (split_chr nl markdown) with
     | [] => []
     | items => toc_heading ++ join (str "\n") items ++ str "\n\n---\n\n"
     end,
     join (str "\n") (spec_lines [] (split_chr nl markdown))).
Proof.
  unfold generate_toc, toc_loop.
  destruct (toc_loop_spec (split_chr nl markdown) (TocState [] [] ∅) [])
    as [Hi Hm]; [done |].
  cbn [toc_items modified_lines app] in Hi, Hm. rewrite Hi, Hm.
  destruct (spec_items [] (split_chr nl markdown)) eqn:E; [| done].
  rewrite (spec_lines_no_header _ _ E). f_equal.
  symmetry. apply (join_split_chr nl).
Qed.

End Collisions.

(** * Further properties of the code *)

(** ** Lines with one image and lines with several *)

Section ColumnOrSingle.
Context {U : Unicode} {F : FileSystem}.

(** X1.  On a physical line (a text with no line feed), the pass of
    inferred columns leaves the line as it is when [re.findall] finds
    exactly one image reference in it, so that the reference is still
    there for the substitution of single images; when it finds two or
    more, the pass replaces the whole line by one column group built
    from all the references found, and the group holds no image
    reference: [re.findall] finds none in it and the substitution of
    single images leaves it as it is. *)
Theorem column_or_single (base_path : option pystr) (line : pystr) :
  nl ∉ line ->
  (length (re_findall2 image_re line) = 1 ->
   re_sub inline_columns_re (process_inline_columns base_path) line = line)
  /\ (2 <= length (re_findall2 image_re line) ->
      re_sub inline_columns_re (process_inline_columns base_path) line
      = column_group base_path (re_findall2 image_re line)
      /\ re_findall2 image_re (column_group base_path (re_findall2 image_re line)) = []
      /\ re_sub image_re (replace_image base_path)
           (column_group base_path (re_findall2 image_re line))
         = column_group base_path (re_findall2 image_re line)).
Proof.
  intros Hnl. rewrite inline_columns_line by done. split.
  - by intros ->.
  - intros H2.
    destruct (Nat.ltb_spec (length (re_findall2 image_re line)) 2); [lia |].
    split; [done |].
    destruct (no_bracket_no_image (column_group base_path (re_findall2 image_re line)))
      as [Hf Hs]; [| by rewrite Hs].
    apply column_group_safe, found_alt_safe.
Qed.

(** X2.  On a physical line in which [re.findall] finds two image
    references or more, the pass of inferred columns puts out the
    column group of these references and nothing else: the output is
    the same for every other line with the same references, whatever
    text stands around and between them. *)
Theorem inline_columns_discard (base_path : option pystr) (line : pystr) :
  nl ∉ line ->
  2 <= length (re_findall2 image_re line) ->
  re_sub inline_columns_re (process_inline_columns base_path) line
  = column_group base_path (re_findall2 image_re line)
  /\ forall other,
       nl ∉ other ->
       re_findall2 image_re other = re_findall2 image_re line ->
       re_sub inline_columns_re (process_inline_columns base_path) other
       = re_sub inline_columns_re (process_inline_columns base_path) line.
Proof.
  intros Hnl H2.
  assert (Hline : re_sub inline_columns_re (process_inline_columns base_path) line
                  = column_group base_path (re_findall2 image_re line)).
  { rewrite inline_columns_line by done.
    destruct (Nat.ltb_spec (length (re_findall2 image_re line)) 2); [lia | done]. }
  split; [done |].
  intros other Ho He. rewrite Hline, inline_columns_line by done. rewrite He.
  destruct (Nat.ltb_spec (length (re_findall2 image_re line)) 2); [lia | done].
Qed.

End ColumnOrSingle.

Lemma no_line_feed (s : pystr) : forallb dot s = true -> nl ∉ s.
Proof.
  intros H Hin. apply list_elem_of_In in Hin.
  rewrite forallb_forall in H. apply H in Hin. by vm_compute in Hin.
Qed.

Lemma column_or_single_witness :
  @re_sub inline_columns_re (@process_inline_columns ascii_only two_files None)
    (str "See ![photo](photo.png) here")
  = str "See ![photo](photo.png) here"
  /\ @re_sub inline_columns_re (@process_inline_columns ascii_only two_files None)
       (str "Left ![photo](photo.png) and ![chart](chart.svg) right")
     = str "<div class='image-columns'><figure class='column-item'><img src='data:image/png;base64,iVBORw==' alt='photo'/><figcaption>photo</figcaption></figure><figure class='column-item'><img src='data:image/svg+xml;base64,PHN2Zz4=' alt='chart'/><figcaption>chart</figcaption></figure></div>".
Proof.
  split.
  - apply (@column_or_single ascii_only two_files None
             (str "See ![photo](photo.png) here")).
    + apply no_line_feed. vm_compute. reflexivity.
    + vm_compute. reflexivity.
  - destruct (@column_or_single ascii_only two_files None
                (str "Left ![photo](photo.png) and ![chart](chart.svg) right"))
      as [_ H].
    + apply no_line_feed. vm_compute. reflexivity.
    + destruct H as [H _].
      * vm_compute. lia.
      * rewrite H. vm_compute. reflexivity.
Defined.

Lemma inline_columns_discard_witness :
  @re_sub inline_columns_re (@process_inline_columns ascii_only two_files None)
    (str "![photo](photo.png)![chart](chart.svg)")
  = @re_sub inline_columns_re (@process_inline_columns ascii_only two_files None)
      (str "Left ![photo](photo.png) and ![chart](chart.svg) right").
Proof.
  destruct (@inline_columns_discard ascii_only two_files None
              (str "Left ![photo](photo.png) and ![chart](chart.svg) right"))
    as [_ H].
  - apply no_line_feed. vm_compute. reflexivity.
  - vm_compute. lia.
  - apply H.
    + apply no_line_feed. vm_compute. reflexivity.
    + vm_compute. reflexivity.
Defined.

Section NoHeader.
Context {U : Unicode} {F : FileSystem}.

Lemma spec_items_nil (seen lines : list pystr) :
  spec_items seen lines = [] <-> Forall (fun line => header_of line = None) lines.
Proof.
  revert seen. induction lines as [|line lines IH]; intros seen; cbn [spec_items].
  - split; [constructor | done].
  - destruct (header_of line) as [[h t]|] eqn:E.
    + split; [done |]. intros H. inversion H. congruence.
    + rewrite IH. split; [by constructor |]. intros H. by inversion H.
Qed.

Lemma toc_md_nil (markdown : pystr) :
  fst (generate_toc markdown) = []
  <-> Forall (fun line => header_of line = None) (split_chr nl markdown).
Proof.
  unfold generate_toc, toc_loop.
  destruct (toc_loop_spec (split_chr nl markdown) (TocState [] [] ∅) [])
    as [Hi _]; [done |].
  cbn [toc_items app] in Hi. rewrite Hi, <- (spec_items_nil []).
  by destruct (spec_items [] (split_chr nl markdown)).
Qed.

(** X3.  A document gets a contents list exactly when one of its lines
    is a level-2 or level-3 header for [generate_toc].  When none is,
    [generate_toc] returns the empty string and the text as it was,
    and [markdown_to_html] returns what [markdown_to_html_internal]
    makes of the text, with no [nav] container in front. *)
Theorem no_header_no_toc (markdown : pystr) (base_path : option pystr) :
  (fst (generate_toc markdown) = []
   <-> Forall (fun line => header_of line = None) (split_chr nl markdown))
  /\ (fst (generate_toc markdown) = [] ->
      generate_toc markdown = ([], markdown)
      /\ markdown_to_html markdown base_path true
         = markdown_to_html_internal markdown base_path).
Proof.
  split; [apply toc_md_nil |].
  intros H. assert (Hg : generate_toc markdown = ([], markdown)).
  { revert H. unfold generate_toc. by destruct (toc_items _). }
  split; [done |]. unfold markdown_to_html. by rewrite Hg.
Qed.

End NoHeader.
Section Untouched.
Context {U : Unicode}.

Lemma quote_loop_plain (lines : list pystr) (acc content : list pystr) :
  Forall (fun line => startswith (str "> ") (strip line) = false) lines ->
  fold_left quote_step lines (QuoteState acc false content)
  = QuoteState (acc ++ lines) false content.
Proof.
  intros H. revert acc. induction H as [|line lines Hl _ IH]; intros acc.
  - cbn. by rewrite app_nil_r.
  - cbn [fold_left]. unfold quote_step at 2. rewrite Hl.
    cbn [in_blockquote q_result_lines blockquote_content].
    rewrite IH, <- app_assoc. done.
Qed.

Lemma table_loop_plain (lines : list pystr) (acc : list pystr) :
  Forall (fun line => is_table_row (strip line) = false) lines ->
  fold_left table_step lines (TableState acc [] false)
  = TableState (acc ++ lines) [] false.
Proof.
  intros H. revert acc. induction H as [|line lines Hl _ IH]; intros acc.
  - cbn. by rewrite app_nil_r.
  - cbn [fold_left]. unfold table_step at 2. rewrite Hl.
    cbn [in_table t_result_lines table_buffer].
    rewrite IH, <- app_assoc. done.
Qed.

(** A line the list pass takes for an item. *)
Lemma list_loop_plain (lines : list pystr) (acc : list pystr) :
  Forall (fun line => is_list_item (strip line) = false) lines ->
  fold_left list_step lines (ListState acc false false)
  = ListState (acc ++ lines) false false.
Proof.
  intros H. revert acc. induction H as [|line lines Hl _ IH]; intros acc.
  - cbn. by rewrite app_nil_r.
  - cbn [fold_left]. unfold list_step at 2. unfold is_list_item in Hl.
    apply orb_false_iff in Hl as [Hl1 Hl2]. rewrite Hl1, Hl2.
    cbn [in_ul in_ol l_result].
    rewrite IH, <- app_assoc. done.
Qed.

(** X4.  Each of the three grouping passes returns a text unchanged
    when the text has none of the lines the pass groups: no line that
    begins (once trimmed) with [> ] for the blockquote pass, no row
    line for the table pass, no item line for the list pass. *)
Theorem grouping_passes_leave_plain_text (html : pystr) :
  (Forall (fun line => startswith (str "> ") (strip line) = false)
     (split_chr nl html) -> blockquotes html = html)
  /\ (Forall (fun line => is_table_row (strip line) = false)
        (split_chr nl html) -> tables html = html)
  /\ (Forall (fun line => is_list_item (strip line) = false)
        (split_chr nl html) -> lists html = html).
Proof.
  split; [| split]; intros H.
  - unfold blockquotes. rewrite quote_loop_plain by done.
    cbn [in_blockquote q_result_lines app]. apply (join_split_chr nl).
  - unfold tables. rewrite table_loop_plain by done.
    unfold table_flush. cbn [table_buffer t_result_lines app].
    apply (join_split_chr nl).
  - unfold lists. rewrite list_loop_plain by done.
    cbn [in_ul in_ol l_result app]. apply (join_split_chr nl).
Qed.

End Untouched.
Lemma quote_loop_run (qs : list pystr) (acc content : list pystr) :
  Forall (fun line => startswith (str "> ") (strip line) = true) qs ->
  fold_left quote_step qs (QuoteState acc true content)
  = QuoteState acc true (content ++ map (fun line => drop 2 (strip line)) qs).
Proof.
  intros H. revert content. induction H as [|line qs Hl _ IH]; intros content.
  - cbn. by rewrite app_nil_r.
  - cbn [fold_left]. unfold quote_step at 2. rewrite Hl.
    cbn [in_blockquote q_result_lines blockquote_content].
    rewrite IH, <- app_assoc. done.
Qed.

(** X5.  A run of lines that each begin (once trimmed) with [> ],
    met outside a blockquote, is put out as one blockquote: the lines
    without their markers, in order, joined by [<br/>].  The
    blockquote is put out in front of the first line that ends the
    run, or at the end of the input. *)
Theorem blockquote_run (st : quote_state) (q : pystr) (qs : list pystr)
    (next : pystr) :
  in_blockquote st = false ->
  Forall (fun line => startswith (str "> ") (strip line) = true) (q :: qs) ->
  startswith (str "> ") (strip next) = false ->
  quote_step (fold_left quote_step (q :: qs) st) next
  = QuoteState
      (q_result_lines st
       ++ [blockquote_html (map (fun line => drop 2 (strip line)) (q :: qs))]
       ++ [next])
      false []
  /\ fold_left quote_step (q :: qs) st
     = QuoteState (q_result_lines st) true
         (map (fun line => drop 2 (strip line)) (q :: qs)).
Proof.
  intros Hout Hq Hn. inversion Hq as [|? ? Hq1 Hqs]; subst.
  assert (Hrun : fold_left quote_step (q :: qs) st
                 = QuoteState (q_result_lines st) true
                     (map (fun line => drop 2 (strip line)) (q :: qs))).
  { cbn [fold_left]. unfold quote_step at 2. rewrite Hq1, Hout.
    rewrite quote_loop_run by done. done. }
  split; [| done]. rewrite Hrun. unfold quote_step. rewrite Hn.
  cbn [in_blockquote q_result_lines blockquote_content]. done.
Qed.

Ltac all_lines :=
  repeat (constructor; [vm_compute; reflexivity |]); constructor.

Lemma blockquote_run_witness :
  quote_step
    (fold_left quote_step [str "> first"; str "  > second"]
       (QuoteState [str "intro"] false []))
    (str "after")
  = QuoteState
      ([str "intro"]
       ++ [blockquote_html
             (map (fun line => drop 2 (strip line)) [str "> first"; str "  > second"])]
       ++ [str "after"])
      false [].
Proof.
  apply (blockquote_run (QuoteState [str "intro"] false [])
           (str "> first") [str "  > second"] (str "after")).
  - reflexivity.
  - all_lines.
  - vm_compute. reflexivity.
Defined.

Lemma leading_beyond (p : Z -> bool) (s : pystr) : leading p s ++ beyond p s = s.
Proof.
  induction s as [|c s IH]; [done |]. cbn.
  destruct (p c); [| done]. cbn. by rewrite IH.
Qed.

Lemma take_leading (p : Z -> bool) (s : pystr) :
  take (length s - length (beyond p s)) s = leading p s.
Proof.
  rewrite <- (leading_beyond p s) at 1 3. rewrite length_app.
  replace (length (leading p s) + length (beyond p s) - length (beyond p s))
    with (length (leading p s)) by lia.
  by rewrite take_app_length.
Qed.

Lemma option_match_id {A} (o : option A) :
  match o with Some r => Some r | None => None end = o.
Proof. by destruct o. Qed.

(** A greedy repetition in front of a continuation that stops at the
    class takes the whole run of the class, or fails. *)
Lemma rep_max {R} (p : Z -> bool) (lo : nat) (hi : option nat)
    (cs : list (nat * pystr)) (k : cursor -> option R) (pv : option Z) (s : pystr) :
  stops p k ->
  rep p true lo hi cs k pv s
  = if (lo <=? length (leading p s)) && fits (length (leading p s)) hi
    then k (Cursor (last_or (leading p s) pv) (beyond p s) cs)
    else None.
Proof.
  intros Hk. revert lo hi pv. induction s as [|c s IH]; intros lo hi pv.
  - cbn [rep leading beyond length last_or]. destruct lo; [| done].
    cbn. by destruct hi.
  - cbn [rep leading beyond].
    assert (Hstop : p c = true ->
                    match lo with 0 => k (Cursor pv (c :: s) cs) | S _ => None end = None).
    { intros Hc. destruct lo; [| done].
      destruct (k (Cursor pv (c :: s) cs)) eqn:Ek; [| done].
      specialize (Hk (Cursor pv (c :: s) cs)). rewrite Ek in Hk.
      cbn in Hk. rewrite Hk in Hc; [done | by eexists]. }
    destruct (p c) eqn:Ec; cbn [andb length].
    + rewrite (Hstop eq_refl). rewrite last_or_cons.
      destruct hi as [[|h]|]; cbn [room less fits pred].
      * by rewrite andb_false_r.
      * rewrite IH. cbn [fits].
        replace (lo <=? S (length (leading p s)))
          with (pred lo <=? length (leading p s)) by (by destruct lo).
        change (S (length (leading p s)) <=? S h) with (length (leading p s) <=? h).
        apply option_match_id.
      * rewrite IH. cbn [fits].
        replace (lo <=? S (length (leading p s)))
          with (pred lo <=? length (leading p s)) by (by destruct lo).
        apply option_match_id.
    + destruct lo; [| done]. cbn. destruct hi; cbn; apply option_match_id || reflexivity.
Qed.

Lemma leading_all (p : Z -> bool) (s : pystr) :
  forallb p s = true -> leading p s = s /\ beyond p s = [].
Proof.
  induction s as [|c s IH]; [done |]. cbn.
  intros H. apply andb_true_iff in H as [-> H]. destruct (IH H) as [-> ->]. done.
Qed.

Lemma forallb_dot (s : pystr) : nl ∉ s -> forallb dot s = true.
Proof. intros H. rewrite <- (firstn_all s). by apply forallb_dot_take. Qed.

Lemma stops_Eol {R} (k : cursor -> option R) : stops dot (run (Eol false) k).
Proof.
  intros x. cbn [run]. destruct (rest x) as [|c s']; [done |].
  unfold dot. destruct (c =? nl)%Z; [done |]. cbn. by intros [? ?].
Qed.

(** Group 2 of the header pattern and the end of the line, on a text
    with no line feed: the group takes all the text, which must not
    be empty. *)
Lemma run_title_group (x : cursor) :
  nl ∉ rest x ->
  run (Grp 2 (plus dot)) (run (Eol false) Some) x
  = match rest x with
    | [] => None
    | _ => Some (Cursor (last_or (rest x) (prev x)) [] ((2, rest x) :: caps x))
    end.
Proof.
  intros Hnl. unfold plus. cbn [run].
  rewrite rep_max.
  2:{ intros y Hy. by apply (stops_Eol Some) in Hy. }
  destruct (leading_all dot (rest x) (forallb_dot _ Hnl)) as [-> ->].
  cbn [fits andb prev rest caps length]. rewrite andb_true_r, Nat.sub_0_r, firstn_all.
  by destruct (rest x).
Qed.

Lemma list_last_cons (c : Z) (s : pystr) (d : Z) :
  s <> [] -> List.last (c :: s) d = List.last s d.
Proof. by destruct s. Qed.

(** The white space after the hashes, tried from the longest run
    down, in front of group 2: the group is the text after the white
    space, or the last white-space character when nothing follows. *)
Lemma rep_spaces_title (lo : nat) (cs : list (nat * pystr)) (pv : option Z)
    (s : pystr) :
  nl ∉ s -> lo <= 1 ->
  rep is_space true lo None cs (run (Grp 2 (plus dot)) (run (Eol false) Some)) pv s
  = match s with
    | [] => None
    | c :: s' =>
        if (lo =? 0) || (is_space c && negb (bool_decide (s' = [])))
        then Some (Cursor (Some (List.last s 0%Z)) [] ((2, title_group s) :: cs))
        else None
    end.
Proof.
  revert lo pv. induction s as [|c s IH]; intros lo pv Hnl Hlo.
  - cbn [rep]. destruct lo; [| done]. by rewrite run_title_group.
  - apply not_elem_of_cons in Hnl as [Hc Hs].
    cbn [rep room less andb]. rewrite andb_true_r.
    assert (Hk : run (Grp 2 (plus dot)) (run (Eol false) Some) (Cursor pv (c :: s) cs)
                 = Some (Cursor (Some (List.last (c :: s) 0%Z)) [] ((2, c :: s) :: cs))).
    { rewrite run_title_group; [reflexivity |]. cbn [rest]. by apply not_elem_of_cons. }
    unfold title_group. cbn [lstrip].
    destruct (is_space c) eqn:Ec.
    + rewrite IH by (done || (destruct lo; cbn; lia)).
      replace (pred lo =? 0) with true by (by destruct lo as [|[|]]; [| | lia]).
      cbn [orb andb].
      destruct s as [|c' s'].
      * cbn [lstrip]. destruct lo as [|[|]]; [| done | lia].
        rewrite Hk. done.
      * rewrite bool_decide_false by done. cbn [negb]. rewrite orb_true_r.
        rewrite (list_last_cons c (c' :: s')) by done.
        unfold title_group.
        by destruct (lstrip (c' :: s')) eqn:El.
    + cbn [andb]. rewrite orb_false_r. destruct lo as [|[|]]; [| done | lia].
      by rewrite Hk.
Qed.

Lemma rep_lo_pos {R} (p : Z -> bool) (g : bool) (lo : nat) (hi : option nat)
    (cs : list (nat * pystr)) (k : cursor -> option R) (pv : option Z) (s : pystr) :
  is_Some (rep p g (S lo) hi cs k pv s) ->
  exists c s', s = c :: s' /\ p c = true.
Proof.
  destruct s as [|c s']; cbn [rep].
  - destruct g; cbn; by intros [? [=]].
  - destruct (p c) eqn:Ec; [by eexists _, _ |]. cbn. destruct g; cbn; by intros [? [=]].
Qed.

Lemma space_not_hash (c : Z) : is_space c = true -> chr "#" c = false.
Proof.
  unfold chr. destruct (c =? code "#")%Z eqn:E; [| done].
  apply Z.eqb_eq in E. subst c. by vm_compute.
Qed.

(** What [re.match] finds with the header pattern of [generate_toc]
    on a line with no line feed. *)
Lemma re_match_toc_header (line : pystr) :
  nl ∉ line ->
  re_match toc_header_re line
  = if (2 <=? length (leading (chr "#") line))
       && (length (leading (chr "#") line) <=? 3)
       && match beyond (chr "#") line with
          | c :: _ :: _ => is_space c
          | _ => false
          end
    then Some (Match line [(2, title_group (beyond (chr "#") line));
                           (1, leading (chr "#") line)])
    else None.
Proof.
  intros Hnl. unfold re_match, exec, toc_header_re. rewrite !run_Seq.
  cbn [run prev rest caps]. rewrite rep_max.
  2:{ intros y Hy. unfold plus in Hy. cbn [run prev rest caps] in Hy.
      apply rep_lo_pos in Hy as (c & s' & -> & Hc). by apply space_not_hash. }
  cbn [fits prev rest caps]. unfold plus. cbn [run prev rest caps].
  destruct (_ && _); [| done]. cbn [andb].
  rewrite take_leading.
  assert (Hr : nl ∉ beyond (chr "#") line).
  { intros H. apply Hnl. rewrite <- (leading_beyond (chr "#") line).
    apply elem_of_app. by right. }
  rewrite rep_spaces_title by (done || lia).
  destruct (beyond (chr "#") line) as [|c [|c' s']] eqn:Er; [done | |].
  - cbn. by rewrite andb_false_r.
  - rewrite bool_decide_false by done. cbn [Nat.eqb orb negb].
    rewrite andb_true_r. destruct (is_space c); [| done].
    cbn [rest caps length]. by rewrite Nat.sub_0_r, firstn_all.
Qed.

Lemma lstrip_beyond (s : pystr) : lstrip s = beyond is_space s.
Proof. induction s as [|c s IH]; [done |]. cbn. by rewrite IH. Qed.

Lemma lstrip_idem (s : pystr) : lstrip (lstrip s) = lstrip s.
Proof.
  induction s as [|c s IH]; [done |]. cbn [lstrip].
  destruct (is_space c) eqn:E; [done |]. cbn [lstrip]. by rewrite E.
Qed.

Lemma lstrip_nil (s : pystr) : lstrip s = [] -> forallb is_space s = true.
Proof.
  induction s as [|c s IH]; [done |]. cbn.
  destruct (is_space c); [apply IH | done].
Qed.

Lemma strip_spaces (s : pystr) : forallb is_space s = true -> strip s = [].
Proof.
  intros H. unfold strip, rstrip.
  destruct (leading_all is_space s H) as [_ Hb]. by rewrite (lstrip_beyond s), Hb.
Qed.

Lemma strip_title_group (r : pystr) : r <> [] -> strip (title_group r) = strip r.
Proof.
  intros Hr. unfold title_group. destruct (lstrip r) as [|c g] eqn:E.
  - apply lstrip_nil in E. rewrite (strip_spaces r E).
    apply strip_spaces. cbn. rewrite andb_true_r.
    rewrite forallb_forall in E. apply E.
    destruct r as [|x r]; [done |]. apply list_elem_of_In, list_last_in.
  - unfold strip. rewrite E, <- E. by rewrite lstrip_idem.
Qed.

Lemma header_of_shape (line : pystr) :
  nl ∉ line ->
  header_of line
  = match toc_header_shape line with
    | Some (hashes, title) => Some (hashes, re_sub anchor_note_re erase title)
    | None => None
    end.
Proof.
  intros Hnl. unfold header_of, toc_header_shape.
  rewrite re_match_toc_header by done.
  destruct (_ && _) eqn:E; [| done].
  cbn [group groups assoc Nat.eqb]. rewrite strip_title_group; [done |].
  apply andb_true_iff in E as [_ E]. by destruct (beyond (chr "#") line).
Qed.

(** X7.  On a line with no line feed, [generate_toc] reads a header
    exactly when the line begins with two or three hashes (and no
    fourth), followed by a white-space character and at least one
    more character; the title it keeps is all that follows the
    hashes, trimmed, with the anchor notes removed.  A line with one
    hash, or with four or more, is never a header of the contents
    list. *)
Theorem toc_header_lines (line : pystr) :
  nl ∉ line ->
  header_of line
  = match toc_header_shape line with
    | Some (hashes, title) => Some (hashes, re_sub anchor_note_re erase title)
    | None => None
    end.
Proof. apply header_of_shape. Qed.

Lemma toc_header_lines_witness :
  header_of (str "###   Scope and  limits {#old}  ")
  = Some (str "###", str "Scope and  limits")
  /\ header_of (str "# Title") = None
  /\ header_of (str "#### Deep") = None.
Proof.
  rewrite !toc_header_lines by (apply no_line_feed; vm_compute; reflexivity).
  vm_compute. repeat split; reflexivity.
Defined.
(** Erasing the matches of a pattern leaves a subsequence of the text. *)
Lemma scan_erase_sublist (r : re) (pv : option Z) (s : pystr) (n : nat) :
  flat_map (fun p => match p with Plain c => [c] | Hit m => erase m end)
    (scan r pv s n) `sublist_of` s.
Proof.
  revert pv n. induction s as [|c s IH]; intros pv n.
  - destruct n; cbn [scan]; [| done]. by destruct (exec r pv []).
  - destruct n as [|n]; cbn [scan].
    + destruct (exec r pv (c :: s)) as [m|].
      * cbn [flat_map erase app]. destruct (length (whole m)).
        -- cbn [flat_map app]. by apply sublist_skip.
        -- by apply sublist_cons.
      * cbn [flat_map app]. by apply sublist_skip.
    + by apply sublist_cons.
Qed.

Lemma sub_erase_sublist (r : re) (s : pystr) : re_sub r erase s `sublist_of` s.
Proof. apply scan_erase_sublist. Qed.

Lemma sublist_free (c : Z) (t s : pystr) : t `sublist_of` s -> c ∉ s -> c ∉ t.
Proof. intros Hsub Hs Ht. apply Hs. by eapply elem_of_sublist. Qed.

(** Erasing the characters of a class leaves the others. *)
Lemma scan_chr_erase (q : Z -> bool) (pv : option Z) (s : pystr) :
  Forall (fun c => q c = false)
    (flat_map (fun p => match p with Plain c => [c] | Hit m => erase m end)
       (scan (Chr q) pv s 0)).
Proof.
  revert pv. induction s as [|c s IH]; intros pv; [by cbn |].
  cbn [scan]. unfold exec. cbn [run rest caps].
  destruct (q c) eqn:E.
  - cbn [whole rest length]. replace (S (length s) - length s) with 1 by lia.
    cbn [take length whole flat_map erase app]. apply IH.
  - cbn [flat_map app]. by constructor.
Qed.

(** A greedy repetition in front of the end of the pattern takes the
    whole run of its class. *)
Lemma rep_to_end (p : Z -> bool) (lo : nat) (cs : list (nat * pystr))
    (pv : option Z) (s : pystr) :
  rep p true lo None cs Some pv s
  = if lo <=? length (leading p s)
    then Some (Cursor (last_or (leading p s) pv) (beyond p s) cs)
    else None.
Proof.
  revert lo pv. induction s as [|c s IH]; intros lo pv.
  - cbn. by destruct lo.
  - cbn [rep leading beyond room less andb]. rewrite andb_true_r.
    destruct (p c) eqn:E; cbn [length].
    + rewrite IH, last_or_cons.
      replace (lo <=? S (length (leading p s)))
        with (pred lo <=? length (leading p s)) by (by destruct lo).
      destruct (pred lo <=? length (leading p s)) eqn:El; [done |].
      destruct lo as [|lo]; [done | done].
    + by destruct lo.
Qed.

Lemma exec_spaces (pv : option Z) (s : pystr) :
  exec spaces_re pv s
  = match leading is_space s with
    | [] => None
    | w => Some (Match w [])
    end.
Proof.
  unfold exec, spaces_re, plus. cbn [run prev rest caps]. rewrite rep_to_end.
  destruct (leading is_space s) as [|c w] eqn:E; [done |].
  cbn [Nat.leb length rest caps]. by rewrite take_leading, E.
Qed.

(** Putting a hyphen for each run of white space leaves hyphens and
    the characters of the text that are not white space. *)
Lemma scan_spaces_hyphen (pv : option Z) (s : pystr) (n : nat) :
  Forall (fun c => c = 45%Z \/ (is_space c = false /\ c ∈ s))
    (flat_map (fun p => match p with Plain c => [c] | Hit m => str "-" end)
       (scan spaces_re pv s n)).
Proof.
  revert pv n. induction s as [|c s IH]; intros pv n.
  - destruct n; cbn [scan]; [| done]. by rewrite exec_spaces.
  - assert (Hweak : forall l,
              Forall (fun c0 => c0 = 45%Z \/ (is_space c0 = false /\ c0 ∈ s)) l ->
              Forall (fun c0 => c0 = 45%Z \/ (is_space c0 = false /\ c0 ∈ c :: s)) l).
    { intros l Hl. eapply Forall_impl; [exact Hl |].
      intros x [-> | [Hx Hin]]; [by left | right].
      split; [done | by right]. }
    destruct n as [|n]; cbn [scan]; [| by apply Hweak].
    rewrite exec_spaces. cbn [leading].
    destruct (is_space c) eqn:E.
    + cbn [whole length flat_map app]. constructor; [by left |].
      by apply Hweak.
    + cbn [flat_map app]. constructor; [right; split; [done | by left] |].
      by apply Hweak.
Qed.
Section Anchors.
Context {U : Unicode}.

Lemma uint_str_kept (d : Decimal.uint) :
  Forall (fun c => slug_keep c = true /\ is_space c = false) (uint_str d).
Proof.
  induction d; cbn [uint_str]; constructor; try done; split; vm_compute; reflexivity.
Qed.

Lemma slug_kept (title : pystr) :
  Forall (fun c => slug_keep c = true /\ is_space c = false) (slug title).
Proof.
  unfold slug, re_sub.
  pose proof (scan_spaces_hyphen None
    (flat_map (fun p => match p with Plain c => [c] | Hit m => erase m end)
       (scan slug_drop_re None (str_lower title) 0)) 0) as H.
  eapply Forall_impl; [exact H |]. intros c [-> | [Hs Hin]].
  - split; vm_compute; reflexivity.
  - split; [| done].
    pose proof (scan_chr_erase (none_of slug_keep) None (str_lower title)) as Hk.
    rewrite Forall_forall in Hk. apply Hk in Hin.
    unfold none_of in Hin. by apply negb_false_iff in Hin.
Qed.

Lemma numbered_chars (seen : list pystr) (title : pystr) :
  Forall (fun c => slug_keep c = true /\ is_space c = false)
    (numbered seen (slug title))
  /\ Forall (fun c => c ∉ str " \n{}()[]#'") (numbered seen (slug title)).
Proof.
  assert (H : Forall (fun c => slug_keep c = true /\ is_space c = false)
                (numbered seen (slug title))).
  { unfold numbered. destruct (collisions seen (slug title)); [apply slug_kept |].
    rewrite !Forall_app. split; [apply slug_kept |]. split.
    - constructor; [| constructor]. split; vm_compute; reflexivity.
    - apply uint_str_kept. }
  split; [done |].
  eapply Forall_impl; [exact H |]. intros c [Hk Hs] Hin.
  vm_compute in Hin.
  repeat (apply elem_of_cons in Hin as [-> | Hin];
          [vm_compute in Hk; vm_compute in Hs; congruence |]).
  by apply elem_of_nil in Hin.
Qed.

(** X8.  Every character of an anchor that [generate_toc] assigns is
    kept by the slug's character class and is not white space: it is
    a word character, a kana or a CJK ideograph, or a hyphen.  An
    anchor therefore holds no space, no line feed, no brace, bracket
    or parenthesis, no hash and no double quote. *)
Theorem anchor_characters (seen : list pystr) (title : pystr) :
  Forall (fun c => slug_keep c = true /\ is_space c = false)
    (numbered seen (slug title))
  /\ Forall (fun c => c ∉ str " \n{}()[]#'") (numbered seen (slug title)).
Proof. apply numbered_chars. Qed.

End Anchors.
Lemma split_chr_free (c : Z) (s : pystr) :
  Forall (fun line => c ∉ line) (split_chr c s).
Proof.
  induction s as [|x s IH]; cbn [split_chr].
  - constructor; [apply not_elem_of_nil | constructor].
  - destruct (x =? c)%Z eqn:E.
    + constructor; [apply not_elem_of_nil | done].
    + destruct (split_chr c s) as [|w ws]; inversion IH; subst.
      * constructor; [| constructor]. apply Z.eqb_neq in E.
        rewrite not_elem_of_cons. split; [congruence | apply not_elem_of_nil].
      * constructor; [| done]. apply Z.eqb_neq in E.
        rewrite not_elem_of_cons. split; [congruence | done].
Qed.

Lemma split_chr_app_free (c : Z) (w s : pystr) :
  c ∉ w ->
  split_chr c (w ++ c :: s) = w :: split_chr c s.
Proof.
  induction w as [|x w IH]; intros Hw; cbn [app split_chr].
  - by rewrite Z.eqb_refl.
  - apply not_elem_of_cons in Hw as [Hx Hw].
    destruct (x =? c)%Z eqn:E; [apply Z.eqb_eq in E; congruence |].
    by rewrite IH.
Qed.

Lemma split_chr_line (c : Z) (w : pystr) : c ∉ w -> split_chr c w = [w].
Proof.
  induction w as [|x w IH]; intros Hw; cbn [split_chr]; [done |].
  apply not_elem_of_cons in Hw as [Hx Hw].
  destruct (x =? c)%Z eqn:E; [apply Z.eqb_eq in E; congruence |].
  by rewrite IH.
Qed.

(** Splitting what was joined gives the lines back, when no line
    holds the separator. *)
Lemma split_join_chr (c : Z) (lines : list pystr) :
  lines <> [] -> Forall (fun line => c ∉ line) lines ->
  split_chr c (join [c] lines) = lines.
Proof.
  intros Hne H. induction H as [|w ws Hw Hws IH]; [done |].
  destruct ws as [|w' ws]; [by apply split_chr_line |].
  rewrite join_cons. cbn [app]. rewrite split_chr_app_free by done.
  f_equal. by apply IH.
Qed.

Section KeepsLines.
Context {U : Unicode}.

Lemma leading_class (p : Z -> bool) (s : pystr) : forallb p (leading p s) = true.
Proof.
  induction s as [|c s IH]; [done |]. cbn.
  destruct (p c) eqn:E; [| done]. cbn. by rewrite E.
Qed.

Lemma header_of_free (line hashes title : pystr) :
  nl ∉ line -> header_of line = Some (hashes, title) ->
  (nl ∉ hashes) /\ (nl ∉ title).
Proof.
  intros Hnl. rewrite header_of_shape by done. unfold toc_header_shape.
  destruct (_ && _); [| done]. intros [= <- <-].
  assert (Hr : (nl ∉ beyond (chr "#") line) /\ (nl ∉ leading (chr "#") line)).
  { rewrite <- (leading_beyond (chr "#") line) in Hnl.
    rewrite not_elem_of_app in Hnl. tauto. }
  split; [tauto |].
  eapply sublist_free; [apply sub_erase_sublist |].
  destruct (strip_spec (beyond (chr "#") line)) as (a & b & Hab & _).
  destruct Hr as [Hr _]. rewrite Hab in Hr.
  rewrite !not_elem_of_app in Hr. tauto.
Qed.

Lemma anchor_free (seen : list pystr) (title : pystr) :
  nl ∉ numbered seen (slug title).
Proof.
  intros Hin. destruct (numbered_chars seen title) as [H _].
  rewrite Forall_forall in H. apply H in Hin as [_ Hs]. by vm_compute in Hs.
Qed.

Lemma spec_lines_free (seen lines : list pystr) :
  Forall (fun line => nl ∉ line) lines ->
  Forall (fun line => nl ∉ line) (spec_lines seen lines).
Proof.
  intros H. revert seen. induction H as [|line lines Hl _ IH]; intros seen.
  - constructor.
  - cbn [spec_lines]. destruct (header_of line) as [[h t]|] eqn:E.
    + constructor; [| apply IH].
      destruct (header_of_free _ _ _ Hl E) as [Hh Ht].
      pose proof (anchor_free seen t).
      rewrite !not_elem_of_app. repeat split; try done;
        (intros Hin; vm_compute in Hin;
         repeat (apply elem_of_cons in Hin as [[=] | Hin]);
         by apply elem_of_nil in Hin).
    + constructor; [done | apply IH].
Qed.

Lemma spec_lines_length (seen lines : list pystr) :
  length (spec_lines seen lines) = length lines.
Proof.
  revert seen. induction lines as [|line lines IH]; intros seen; [done |].
  cbn [spec_lines]. destruct (header_of line) as [[h t]|]; cbn; by rewrite IH.
Qed.

Lemma spec_lines_lookup (seen lines : list pystr) (i : nat) (line : pystr) :
  lines !! i = Some line ->
  match header_of line with
  | None => spec_lines seen lines !! i = Some line
  | Some (hashes, title) =>
      exists anchor,
        spec_lines seen lines !! i
        = Some (hashes ++ str " " ++ title ++ str " {#" ++ anchor ++ str "}")
  end.
Proof.
  revert seen i. induction lines as [|l lines IH]; intros seen i; [done |].
  destruct i as [|i]; cbn [lookup list_lookup spec_lines].
  - intros [= ->]. destruct (header_of line) as [[h t]|]; [by eexists | done].
  - intros Hi. specialize (IH seen i Hi) as IH1.
    destruct (header_of l) as [[h' t']|].
    + apply (IH (seen ++ [slug t']) i Hi).
    + apply IH1.
Qed.

Lemma generate_toc_lines (markdown : pystr) :
  split_chr nl (snd (generate_toc markdown))
  = spec_lines [] (split_chr nl markdown).
Proof.
  unfold generate_toc, toc_loop.
  destruct (toc_loop_spec (split_chr nl markdown) (TocState [] [] ∅) [])
    as [Hi Hm]; [done |].
  cbn [toc_items modified_lines app] in Hi, Hm. rewrite Hi, Hm.
  destruct (spec_items [] (split_chr nl markdown)) eqn:E; cbn [snd].
  - by rewrite (spec_lines_no_header _ _ E).
  - apply (split_join_chr nl).
    + destruct (split_chr_cons nl markdown) as (w & ws & Hs). rewrite Hs.
      cbn [spec_lines]. by destruct (header_of w) as [[? ?]|].
    + apply spec_lines_free, split_chr_free.
Qed.

(** X9.  [generate_toc] rewrites the document line by line: the text
    it returns has as many lines as the document; a line that is no
    header of the contents list stays as it is at its place, and a
    header line is replaced by its hashes, its cleaned title and one
    anchor note. *)
Theorem toc_keeps_lines (markdown : pystr) :
  length (split_chr nl (snd (generate_toc markdown)))
  = length (split_chr nl markdown)
  /\ forall i line,
       split_chr nl markdown !! i = Some line ->
       match header_of line with
       | None => split_chr nl (snd (generate_toc markdown)) !! i = Some line
       | Some (hashes, title) =>
           exists anchor,
             split_chr nl (snd (generate_toc markdown)) !! i
             = Some (hashes ++ str " " ++ title ++ str " {#" ++ anchor ++ str "}")
       end.
Proof.
  rewrite generate_toc_lines. split; [apply spec_lines_length |].
  intros i line. apply spec_lines_lookup.
Qed.

End KeepsLines.
Lemma space_not_brace (c : Z) : is_space c = true -> (c =? 123)%Z = false.
Proof.
  destruct (c =? 123)%Z eqn:E; [| done].
  apply Z.eqb_eq in E. subst c. by vm_compute.
Qed.

Lemma run_Rep {R} (p : Z -> bool) (lo : nat) (hi : option nat) (g : bool)
    (k : cursor -> option R) (x : cursor) :
  run (Rep p lo hi g) k x = rep p g lo hi (caps x) k (prev x) (rest x).
Proof. reflexivity. Qed.

(** The pattern of anchor notes reads what [note] reads. *)
Lemma run_note {R} (k : cursor -> option R) (x : cursor) :
  run anchor_note_re k x
  = match note (rest x) with
    | Some r => k (Cursor (Some 125%Z) r (caps x))
    | None => None
    end.
Proof.
  unfold anchor_note_re, star, plus, note. rewrite !run_Seq.
  eval_str. rewrite run_Rep, rep_max.
  2:{ intros y. rewrite run_Lit. cbn [rest].
      destruct (startswith [123; 35]%Z (rest y)) eqn:E; [| by intros [? [=]]].
      apply startswith_spec in E as [r ->]. intros _. cbn [app].
      destruct (is_space 123) eqn:Es; [by vm_compute in Es | done]. }
  match goal with |- context [0 <=? ?n] => change (0 <=? n) with true end.
  cbn [fits andb]. rewrite run_Lit. cbn [prev rest caps length].
  destruct (startswith [123; 35]%Z _); [| done].
  rewrite (run_until _ 125%Z); [| apply not_chr | apply (demands_Lit 125 [])].
  cbn [prev rest caps].
  destruct (1 <=? _); [| done].
  rewrite run_Lit. cbn [prev rest caps length].
  by destruct (startswith [125%Z] _).
Qed.

Lemma exec_note (pv : option Z) (s : pystr) :
  exec anchor_note_re pv s
  = match note s with
    | Some r => Some (Match (take (length s - length r) s) [])
    | None => None
    end.
Proof.
  unfold exec. rewrite run_note. cbn [rest caps]. by destruct (note s).
Qed.
Lemma beyond_suffix (p : Z -> bool) (s : pystr) : beyond p s `suffix_of` s.
Proof. exists (leading p s). by rewrite leading_beyond. Qed.

Lemma note_brace (s r : pystr) : note s = Some r -> 123%Z ∈ s.
Proof.
  unfold note. destruct (startswith [123; 35]%Z (beyond is_space s)) eqn:E; [| done].
  intros _. apply startswith_spec in E as [t E].
  destruct (beyond_suffix is_space s) as [k Hk]. rewrite Hk, E.
  apply elem_of_app. right. left.
Qed.

Lemma scan_note_plain (pv : option Z) (s : pystr) :
  123%Z ∉ s -> scan anchor_note_re pv s 0 = map Plain s.
Proof.
  revert pv. induction s as [|c s IH]; intros pv Hs.
  - cbn [scan]. rewrite exec_note. destruct (note []) eqn:E; [| done].
    by apply note_brace in E.
  - rewrite scan_miss.
    + cbn [map]. f_equal. apply IH. by apply not_elem_of_cons in Hs as [_ ?].
    + rewrite exec_note. destruct (note (c :: s)) eqn:E; [| done].
      by apply note_brace in E.
Qed.

(** A text with no opening brace holds no anchor note. *)
Lemma clean_plain (s : pystr) :
  123%Z ∉ s -> re_sub anchor_note_re erase s = s.
Proof. intros H. unfold re_sub. rewrite scan_note_plain by done. apply sub_plain. Qed.

Lemma beyond_app (p : Z -> bool) (u v : pystr) :
  beyond p u <> [] -> beyond p (u ++ v) = beyond p u ++ v.
Proof.
  induction u as [|c u IH]; [done |]. cbn.
  destruct (p c); [apply IH | done].
Qed.

Lemma beyond_last (p : Z -> bool) (u : pystr) :
  u <> [] -> p (List.last u 0%Z) = false ->
  exists c t, beyond p u = c :: t /\ c ∈ u.
Proof.
  induction u as [|c u IH]; [done |]. intros _ Hl. cbn [beyond].
  destruct (p c) eqn:E.
  - destruct u as [|c' u']; [cbn in Hl; congruence |].
    destruct IH as (x & t & Hb & Hx); [done | by rewrite list_last_cons in Hl |].
    exists x, t. split; [done | by right].
  - exists c, u. split; [done | left].
Qed.

Lemma startswith_app (p r : pystr) : startswith p (p ++ r) = true.
Proof. apply startswith_spec. by exists r. Qed.

Lemma note_appended (a : pystr) :
  a <> [] -> 125%Z ∉ a ->
  note (str " {#" ++ a ++ str "}") = Some [].
Proof.
  intros Ha Hc. unfold note.
  assert (Hb : beyond is_space (str " {#" ++ a ++ str "}")
               = [123; 35]%Z ++ a ++ [125%Z]).
  { eval_str. cbn [app beyond].
    replace (is_space 32) with true by (by vm_compute).
    by replace (is_space 123) with false by (by vm_compute). }
  rewrite Hb, startswith_app. cbn [app drop]. rewrite drop_0.
  destruct (upto_from_unique 125 a [] Hc) as [-> ->].
  destruct a as [|x a]; [done |]. cbn [length Nat.leb].
  reflexivity.
Qed.

(** Cleaning a title that the extractor has rewritten gives the title
    back: the note it appended is the only one found. *)
Lemma scan_note_appended (pv : option Z) (u a : pystr) :
  (u = [] \/ is_space (List.last u 0%Z) = false) ->
  123%Z ∉ u -> a <> [] -> 125%Z ∉ a ->
  flat_map (fun p => match p with Plain c => [c] | Hit m => erase m end)
    (scan anchor_note_re pv (u ++ str " {#" ++ a ++ str "}") 0)
  = u.
Proof.
  intros Hl Hu Ha Hc. revert pv Hl Hu. induction u as [|c u IH]; intros pv Hl Hu.
  - cbn [app].
    rewrite (scan_hit anchor_note_re pv _ (str " {#" ++ a ++ str "}") []
               (Match (str " {#" ++ a ++ str "}") [])).
    + cbn [flat_map erase app scan]. rewrite exec_note.
      destruct (note []) eqn:E; [by apply note_brace in E | done].
    + rewrite exec_note, note_appended by done. cbn [length].
      by rewrite Nat.sub_0_r, firstn_all.
    + done.
    + by vm_compute.
    + by rewrite app_nil_r.
  - apply not_elem_of_cons in Hu as [Hc' Hu].
    destruct Hl as [Hl | Hl]; [done |].
    cbn [app]. rewrite scan_miss.
    + cbn [flat_map app]. f_equal. apply IH; [| done].
      destruct u as [|c2 u2]; [by left | right]. by rewrite list_last_cons in Hl.
    + rewrite exec_note.
      destruct (note (c :: u ++ str " {#" ++ a ++ str "}")) eqn:E; [| done].
      exfalso. revert E. unfold note.
      change (c :: u ++ str " {#" ++ a ++ str "}")
        with ((c :: u) ++ str " {#" ++ a ++ str "}").
      destruct (beyond_last is_space (c :: u)) as (x & t & Hb & Hx); [done | done |].
      rewrite beyond_app by (by rewrite Hb). rewrite Hb. cbn [app startswith].
      destruct (123 =? x)%Z eqn:Ex; [| done].
      apply Z.eqb_eq in Ex. subst x. exfalso.
      apply elem_of_cons in Hx as [Hx | Hx]; [congruence | done].
Qed.
Lemma lstrip_first (s : pystr) (c : Z) (r : pystr) :
  lstrip s = c :: r -> is_space c = false.
Proof.
  induction s as [|x s IH]; [done |]. cbn [lstrip].
  destruct (is_space x) eqn:E; [apply IH |]. by intros [= <- <-].
Qed.

Lemma lstrip_head (c : Z) (s : pystr) :
  is_space c = false -> lstrip (c :: s) = c :: s.
Proof. intros H. cbn. by rewrite H. Qed.

Lemma rstrip_last (s : pystr) :
  s <> [] -> is_space (List.last s 0%Z) = false -> rstrip s = s.
Proof.
  intros Hne Hl. destruct (exists_last Hne) as (s' & x & ->).
  rewrite last_last in Hl. unfold rstrip.
  rewrite rev_app_distr. cbn [rev app]. rewrite lstrip_head by done.
  change (x :: rev s') with (rev [x] ++ rev s').
  by rewrite <- rev_app_distr, rev_involutive.
Qed.

Lemma rstrip_ends (s : pystr) :
  rstrip s <> [] -> is_space (List.last (rstrip s) 0%Z) = false.
Proof.
  unfold rstrip. intros Hne.
  destruct (lstrip (rev s)) as [|c r] eqn:E; [done |].
  apply lstrip_first in E. cbn [rev]. by rewrite last_last.
Qed.

(** A trimmed text that is not empty begins and ends with a character
    that is not white space. *)
Lemma strip_ends (s : pystr) :
  strip s <> [] ->
  (exists c r, strip s = c :: r /\ is_space c = false)
  /\ is_space (List.last (strip s) 0%Z) = false.
Proof.
  intros Hne. split; [| by apply rstrip_ends].
  unfold strip in *. destruct (rstrip_spec (lstrip s)) as (b & Hb & _).
  destruct (rstrip (lstrip s)) as [|c r] eqn:E; [done |].
  exists c, r. split; [done |]. by apply (lstrip_first s c (r ++ b)).
Qed.

Lemma leading_app_stop (p : Z -> bool) (h : pystr) (c : Z) (s : pystr) :
  forallb p h = true -> p c = false ->
  leading p (h ++ c :: s) = h /\ beyond p (h ++ c :: s) = c :: s.
Proof.
  intros Hh Hc. induction h as [|x h IH]; cbn [app leading beyond].
  - by rewrite Hc.
  - cbn in Hh. apply andb_true_iff in Hh as [Hx Hh]. rewrite Hx.
    destruct (IH Hh) as [-> ->]. done.
Qed.
Section Idempotent.
Context {U : Unicode}.

Lemma slug_nil : slug [] = [].
Proof. reflexivity. Qed.

Lemma forallb_free (c : Z) (s : pystr) :
  forallb (fun x => negb (x =? c)%Z) s = true -> c ∉ s.
Proof.
  intros H Hin. apply list_elem_of_In in Hin.
  rewrite forallb_forall in H. apply H in Hin. by rewrite Z.eqb_refl in Hin.
Qed.

Lemma numbered_not_nil (seen : list pystr) (s : pystr) :
  s <> [] -> numbered seen s <> [].
Proof.
  intros Hs. unfold numbered. destruct (collisions seen s); [done |].
  by destruct s.
Qed.

(** The line that [generate_toc] writes for a plain header is read
    again as the same header. *)
Lemma rewritten_header (seen : list pystr) (line hashes title : pystr) :
  nl ∉ line -> plain_header line = true ->
  header_of line = Some (hashes, title) ->
  header_of (hashes ++ str " " ++ title ++ str " {#"
             ++ numbered seen (slug title) ++ str "}")
  = Some (hashes, title).
Proof.
  intros Hnl Hp Hh. unfold plain_header in Hp. rewrite Hh in Hp.
  apply andb_true_iff in Hp as [Hb Hs]. apply forallb_free in Hb.
  apply negb_true_iff, bool_decide_eq_false in Hs.
  assert (Ht : title <> []) by (intros ->; by apply Hs, slug_nil).
  set (a := numbered seen (slug title)).
  assert (Ha : a <> []) by (by apply numbered_not_nil).
  assert (Hc : 125%Z ∉ a).
  { destruct (numbered_chars seen title) as [_ H].
    intros Hin. rewrite Forall_forall in H. apply (H _ Hin). by vm_compute; right; right; right; left. }
  assert (Hna : nl ∉ a) by apply anchor_free.
  (* the header as it was read *)
  pose proof Hh as Hh'. rewrite header_of_shape in Hh' by done.
  unfold toc_header_shape in Hh'.
  destruct (_ && _) eqn:Ec in Hh'; [| done]. injection Hh' as Eh Et.
  apply andb_true_iff in Ec as [Ec _].
  assert (Hr : 123%Z ∉ strip (beyond (chr "#") line)).
  { destruct (strip_spec (beyond (chr "#") line)) as (x & y & Hxy & _).
    intros Hin. apply Hb. rewrite <- (leading_beyond (chr "#") line), Hxy.
    rewrite !elem_of_app. right. right. by left. }
  rewrite clean_plain in Et by done.
  assert (Hne : strip (beyond (chr "#") line) <> []) by (by rewrite Et).
  destruct (strip_ends _ Hne) as [(c & r & Hcr & Hcs) Hlast].
  rewrite Et in Hr, Hcr, Hlast.
  destruct (header_of_free _ _ _ Hnl Hh) as [Hnh Hnt].
  (* the line as it is read again *)
  rewrite header_of_shape.
  2:{ rewrite !not_elem_of_app. repeat split; try done;
        (intros Hin; vm_compute in Hin;
         repeat (apply elem_of_cons in Hin as [[=] | Hin]);
         by apply elem_of_nil in Hin). }
  unfold toc_header_shape.
  assert (Hl : forallb (chr "#") hashes = true)
    by (rewrite <- Eh; apply leading_class).
  change (str " " ++ title ++ str " {#" ++ a ++ str "}")
    with (32%Z :: (title ++ str " {#" ++ a ++ str "}")).
  destruct (leading_app_stop (chr "#") hashes 32
              (title ++ str " {#" ++ a ++ str "}") Hl eq_refl) as [-> ->].
  rewrite <- Eh at 1 2. rewrite Ec. cbn [andb].
  rewrite Hcr at 1. cbn [app].
  replace (is_space 32) with true by (by vm_compute).
  f_equal. f_equal.
  (* trimming, then cleaning *)
  assert (Hs1 : strip (32%Z :: title ++ str " {#" ++ a ++ str "}")
                = title ++ str " {#" ++ a ++ str "}").
  { unfold strip. cbn [lstrip].
    replace (is_space 32) with true by (by vm_compute).
    rewrite Hcr. cbn [app]. rewrite lstrip_head by done.
    apply rstrip_last; [done |].
    replace (c :: r ++ str " {#" ++ a ++ str "}")
      with ((c :: r ++ str " {#" ++ a) ++ [125%Z])
      by (cbn [app]; rewrite <- !app_assoc; reflexivity).
    rewrite last_last. by vm_compute. }
  rewrite Hs1. unfold re_sub. apply scan_note_appended; try done. by right.
Qed.

Lemma spec_lines_idem (seen lines : list pystr) :
  Forall (fun line => nl ∉ line) lines ->
  forallb plain_header lines = true ->
  spec_lines seen (spec_lines seen lines) = spec_lines seen lines
  /\ spec_items seen (spec_lines seen lines) = spec_items seen lines.
Proof.
  intros Hnl. revert seen. induction Hnl as [|line lines Hl _ IH]; intros seen Hp.
  - done.
  - cbn [forallb] in Hp. apply andb_true_iff in Hp as [Hp Hps].
    cbn [spec_lines spec_items].
    destruct (header_of line) as [[h t]|] eqn:E.
    + cbn [spec_lines spec_items].
      rewrite (rewritten_header seen line h t Hl Hp E).
      destruct (IH (seen ++ [slug t]) Hps) as [-> ->]. done.
    + cbn [spec_lines spec_items]. rewrite E.
      destruct (IH seen Hps) as [-> ->]. done.
Qed.

Lemma generate_toc_fst (markdown : pystr) :
  fst (generate_toc markdown)
  = match spec_items [] (split_chr nl markdown) with
    | [] => []
    | items => toc_heading ++ join (str "\n") items ++ str "\n\n---\n\n"
    end.
Proof.
  unfold generate_toc, toc_loop.
  destruct (toc_loop_spec (split_chr nl markdown) (TocState [] [] ∅) [])
    as [Hi _]; [done |].
  cbn [toc_items app] in Hi. rewrite Hi.
  by destruct (spec_items [] (split_chr nl markdown)).
Qed.

Lemma generate_toc_snd (markdown : pystr) :
  snd (generate_toc markdown)
  = join (str "\n") (spec_lines [] (split_chr nl markdown)).
Proof.
  rewrite <- generate_toc_lines. symmetry. apply (join_split_chr nl).
Qed.

(** X10.  On a document whose header lines hold no opening brace and
    have titles with a slug that is not empty, [generate_toc] is
    idempotent: run on the text it returned, it returns the same
    contents list and the same text. *)
Theorem toc_idempotent (markdown : pystr) :
  forallb plain_header (split_chr nl markdown) = true ->
  generate_toc (snd (generate_toc markdown)) = generate_toc markdown.
Proof.
  intros Hp.
  destruct (spec_lines_idem [] (split_chr nl markdown) (split_chr_free nl markdown) Hp)
    as [Hl Hi].
  apply injective_projections.
  - rewrite !generate_toc_fst, generate_toc_lines, Hi. done.
  - rewrite (generate_toc_snd (snd (generate_toc markdown))), generate_toc_lines, Hl.
    symmetry. apply generate_toc_snd.
Qed.

End Idempotent.

Lemma toc_idempotent_witness :
  @generate_toc ascii_only
    (snd (@generate_toc ascii_only (str "## Intro\n\ntext\n### Sub part\n## Intro")))
  = @generate_toc ascii_only (str "## Intro\n\ntext\n### Sub part\n## Intro").
Proof.
  apply (@toc_idempotent ascii_only). vm_compute. reflexivity.
Defined.
Lemma blank_free_app (a b : pystr) :
  blank_free (a ++ b) = true -> blank_free a = true /\ blank_free b = true.
Proof.
  induction a as [|c a IH]; [done |]. cbn [app blank_free].
  intros H. apply andb_true_iff in H as [H1 H2]. destruct (IH H2) as [Ha Hb].
  split; [| done]. rewrite Ha, andb_true_r.
  destruct (c =? nl)%Z; [| done]. cbn [andb] in *.
  destruct a as [|c' a']; [done |]. exact H1.
Qed.

Lemma blank_free_join (a b : pystr) :
  blank_free a = true -> blank_free b = true ->
  (a = [] \/ List.last a 0%Z <> nl \/ b = [] \/ hd 0%Z b <> nl) ->
  blank_free (a ++ b) = true.
Proof.
  intros Ha Hb Hj. induction a as [|c a IH]; [done |].
  cbn [app blank_free] in *. apply andb_true_iff in Ha as [H1 H2].
  destruct a as [|c' a'].
  - cbn [app] in *. rewrite Hb, andb_true_r.
    destruct (c =? nl)%Z eqn:E; [| done]. cbn [andb].
    apply Z.eqb_eq in E. subst c.
    destruct b as [|x b']; [done |].
    destruct Hj as [? | [? | [? | Hx]]]; try done.
    cbn in Hx. apply Z.eqb_neq in Hx. by rewrite Hx.
  - rewrite IH; [| done |].
    + by rewrite andb_true_r.
    + destruct Hj as [? | [Hl | [? | ?]]]; [done | | by right; right; left | by right; right; right].
      right. left. by rewrite list_last_cons in Hl.
Qed.

Lemma split_blank_pieces (s : pystr) :
  (exists w ws, split_go [nl; nl] s 0 = w :: ws /\ w `prefix_of` s
                /\ Forall (fun x => blank_free x = true) (w :: ws))
  /\ Forall (fun x => blank_free x = true) (split_go [nl; nl] s 1).
Proof.
  induction s as [|x s [(w & ws & Hs & Hw & Hall) H1]].
  - split; [exists [], []; by repeat split; try constructor |].
    by repeat constructor.
  - split; [| cbn [split_go]; rewrite Hs; exact Hall].
    cbn [split_go]. destruct (startswith [nl; nl] (x :: s)) eqn:E.
    + exists [], (split_go [nl; nl] s 1). cbn [length Nat.sub].
      repeat split; [apply prefix_nil | by constructor].
    + rewrite Hs. exists (x :: w), ws. repeat split; [by apply prefix_cons |].
      inversion Hall as [|? ? Hbw Hbws]; subst. constructor; [| done].
      cbn [blank_free]. rewrite Hbw, andb_true_r.
      destruct (x =? nl)%Z eqn:Ex; [| done]. cbn [andb].
      destruct w as [|c' w']; [done |].
      destruct (c' =? nl)%Z eqn:Ec; [| done]. exfalso.
      apply Z.eqb_eq in Ex, Ec. subst. destruct Hw as [k ->].
      cbn in E. done.
Qed.

Lemma split_str_blank_free (s : pystr) :
  Forall (fun x => blank_free x = true) (split_str [nl; nl] s).
Proof.
  unfold split_str. destruct (split_blank_pieces s) as [(w & ws & -> & _ & H) _]. done.
Qed.

Lemma split_str_whole (s : pystr) :
  blank_free s = true -> split_str [nl; nl] s = [s].
Proof.
  unfold split_str. induction s as [|x s IH]; [done |].
  intros H. cbn [blank_free] in H. apply andb_true_iff in H as [H1 H2].
  cbn [split_go].
  replace (startswith [nl; nl] (x :: s)) with false.
  - by rewrite IH.
  - cbn [startswith]. destruct (Z.eqb_spec nl x) as [<- | ?]; [| done].
    cbn [andb]. destruct s as [|c s']; [done |].
    cbn in H1. apply negb_true_iff in H1.
    by rewrite andb_true_r, Z.eqb_sym.
Qed.

Lemma last_app_r (a b : pystr) :
  b <> [] -> List.last (a ++ b) 0%Z = List.last b 0%Z.
Proof.
  intros Hb. induction a as [|c a IH]; [done |].
  cbn [app]. rewrite <- IH. destruct (a ++ b) eqn:E; [| done].
  by apply app_eq_nil in E as [_ ?].
Qed.

Lemma wrap_block_tidy (x b : pystr) :
  blank_free x = true -> wrap_block x = Some b -> tidy_block b.
Proof.
  intros Hx. unfold wrap_block.
  destruct (strip_spec x) as (a & z & Hs & _ & _).
  rewrite Hs in Hx. apply blank_free_app in Hx as [_ Hx].
  apply blank_free_app in Hx as [Hx _].
  destruct (strip x) as [|c r] eqn:E; [done |].
  assert (Hne : strip x <> []) by by rewrite E.
  destruct (strip_ends x Hne) as [_ Hl]. rewrite E in Hl.
  change (str "<") with [60%Z]. change (str "<p>") with [60; 112; 62]%Z.
  change (str "</p>") with [60; 47; 112; 62]%Z.
  cbn [startswith]. destruct (Z.eqb_spec 60 c) as [<- | _]; cbn [andb].
  - intros [= <-]. repeat split; [by eexists | done | done].
  - intros [= <-]. repeat split; [by eexists | |].
    + apply (blank_free_join [60; 112; 62]%Z ((c :: r) ++ [60; 47; 112; 62]%Z));
        [done | | by right; left].
      apply blank_free_join; [done | done | by right; right; right].
    + change (is_space (List.last ([60; 112; 62]%Z ++ (c :: r) ++ [60; 47; 112; 62]%Z) 0%Z)
              = false).
      rewrite (last_app_r [60; 112; 62]%Z), (last_app_r (c :: r)); done.
Qed.

Lemma join_tidy (b : pystr) (bs : list pystr) :
  Forall tidy_block (b :: bs) -> tidy_block (join [nl] (b :: bs)).
Proof.
  revert b. induction bs as [|b' bs IH]; intros b Hall.
  - by inversion Hall.
  - inversion Hall as [|? ? Hb Hrest]; subst.
    specialize (IH b' Hrest). change (join [nl] (b :: b' :: bs))
      with (b ++ [nl] ++ join [nl] (b' :: bs)).
    destruct Hb as ([r ->] & Hf & Hl).
    destruct IH as ([g Hg] & Hgf & Hgl). rewrite Hg in *.
    repeat split; [by eexists | |].
    + apply blank_free_join; [done | | right; left].
      * cbn [app blank_free]. cbn [blank_free] in Hgf. by rewrite Hgf.
      * intros Hnl. by rewrite Hnl in Hl.
    + by rewrite (last_app_r (60%Z :: r)), (last_app_r [nl]).
Qed.

Lemma omap_tidy (l : list pystr) :
  Forall (fun x => blank_free x = true) l -> Forall tidy_block (omap wrap_block l).
Proof.
  induction 1 as [|x l Hx _ IH]; [constructor |].
  simpl. destruct (wrap_block x) as [b|] eqn:E; [| exact IH].
  constructor; [by apply (wrap_block_tidy x) | exact IH].
Qed.

Lemma wrap_block_tidy_id (b : pystr) : tidy_block b -> wrap_block b = Some b.
Proof.
  intros ([r ->] & _ & Hl). unfold wrap_block, strip.
  rewrite lstrip_head, rstrip_last; [| done | done | done].
  done.
Qed.

(** X11.  The paragraph stage is idempotent: run on its own output it
    changes nothing.  Every block it puts out begins with [<], ends
    with a character that is not white space and holds no blank line,
    and the blocks are joined by single line feeds, so the output is
    one block that is passed through. *)
Theorem paragraphs_idempotent (html : pystr) :
  paragraphs (paragraphs html) = paragraphs html.
Proof.
  unfold paragraphs. rewrite !paragraph_loop_spec. cbn [app].
  change (str "\n\n") with [nl; nl]. change (str "\n") with [nl].
  pose proof (omap_tidy _ (split_str_blank_free html)) as Hall.
  destruct (omap wrap_block (split_str [nl; nl] html)) as [|b bs]; [done |].
  pose proof (join_tidy b bs Hall) as Ht.
  rewrite (split_str_whole _ (proj1 (proj2 Ht))).
  change (omap wrap_block [join [nl] (b :: bs)])
    with (match wrap_block (join [nl] (b :: bs)) with Some y => [y] | None => [] end).
  by rewrite (wrap_block_tidy_id _ Ht).
Qed.

Lemma paragraphs_shape (html : pystr) :
  paragraphs html = [] \/ tidy_block (paragraphs html).
Proof.
  unfold paragraphs. rewrite paragraph_loop_spec. cbn [app].
  change (str "\n\n") with [nl; nl]. change (str "\n") with [nl].
  pose proof (omap_tidy _ (split_str_blank_free html)) as Hall.
  destruct (omap wrap_block (split_str [nl; nl] html)) as [|b bs]; [by left |].
  right. by apply join_tidy.
Qed.

Lemma tidy_app (a b : pystr) : tidy_block a -> tidy_block b -> tidy_block (a ++ b).
Proof.
  intros ([r ->] & Ha & Hla) ([g ->] & Hb & Hlb). repeat split.
  - by eexists.
  - apply blank_free_join; [done | done | by right; right; right].
  - by rewrite last_app_r.
Qed.

Lemma tidy_literal (s : pystr) :
  (match s with 60%Z :: _ => true | _ => false end
   && blank_free s && negb (is_space (List.last s 0%Z))) = true -> tidy_block s.
Proof.
  intros H. apply andb_true_iff in H as [H H3]. apply andb_true_iff in H as [H1 H2].
  repeat split; [| done | by apply negb_true_iff].
  destruct s as [|c s]; [done |]. exists s. f_equal.
  destruct c as [|p|p]; try done. by do 7 (destruct p as [p|p|]; try done).
Qed.

Section Shape.
Context {U : Unicode} {F : FileSystem}.

(** X12.  The HTML that [markdown_to_html] returns is empty, or it
    begins with [<], ends with a character that is not white space
    and holds no blank line; with or without the table of contents. *)
Theorem html_body_shape (markdown : pystr) (base_path : option pystr)
    (include_toc : bool) :
  markdown_to_html markdown base_path include_toc = []
  \/ tidy_block (markdown_to_html markdown base_path include_toc).
Proof.
  assert (Hbody : forall md, markdown_to_html_internal md base_path = []
                    \/ tidy_block (markdown_to_html_internal md base_path))
    by (intros md; apply paragraphs_shape).
  unfold markdown_to_html. destruct include_toc; [| apply Hbody].
  destruct (generate_toc markdown) as [toc md]. destruct toc as [|c toc]; [apply Hbody |].
  cbv beta iota zeta. right.
  pose proof (Hbody (c :: toc)) as Ht. revert Ht.
  generalize (markdown_to_html_internal (c :: toc) base_path). intros t Ht.
  assert (Hnav : tidy_block (str "<nav class='toc'>" ++ t ++ str "</nav>")).
  { destruct Ht as [-> | Ht].
    - by apply tidy_literal.
    - apply tidy_app; [by apply tidy_literal |].
      apply tidy_app; [done | by apply tidy_literal]. }
  destruct (Hbody md) as [-> | Hc].
  - by rewrite app_nil_r.
  - by apply tidy_app.
Qed.

End Shape.
Section FetchImagesFacts.
Context {U : Unicode}.

(** Replacing each character of a class by a fixed text works
    character by character. *)
Lemma scan_chr_replace (q : Z -> bool) (t : pystr) (pv : option Z) (s : pystr) :
  flat_map (fun p => match p with Plain c => [c] | Hit m => t end)
    (scan (Chr q) pv s 0)
  = flat_map (fun c => if q c then t else [c]) s.
Proof.
  revert pv. induction s as [|c s IH]; intros pv; [by cbn |].
  cbn [scan]. unfold exec. cbn [run rest caps].
  destruct (q c) eqn:E.
  - cbn [whole rest length]. replace (S (length s) - length s) with 1 by lia.
    cbn [take length whole flat_map app]. by rewrite IH, E.
  - cbn [flat_map app]. by rewrite IH, E.
Qed.

Lemma sanitize_map (name : pystr) :
  sanitize_filename name
  = take 50 (map (fun c => if filename_keep c then c else 95%Z) name).
Proof.
  unfold sanitize_filename, re_sub, unsafe_char_re. rewrite scan_chr_replace.
  f_equal. induction name as [|c name IH]; [done |].
  cbn [flat_map map]. rewrite IH. unfold none_of.
  by destruct (filename_keep c).
Qed.

Lemma underscore_kept : filename_keep 95 = true.
Proof. reflexivity. Qed.

Lemma sanitize_filename_facts (name : pystr) :
  sanitize_filename name
  = map (fun c => if filename_keep c then c else 95%Z) (take 50 name)
  /\ Forall (fun c => filename_keep c = true) (sanitize_filename name).
Proof.
  assert (Hm : sanitize_filename name
    = map (fun c => if filename_keep c then c else 95%Z) (take 50 name)).
  { rewrite sanitize_map. change map with (@fmap list _).
    by rewrite fmap_take. }
  split; [exact Hm |]. rewrite Hm. apply Forall_forall. intros c Hc.
  apply list_elem_of_In, in_map_iff in Hc as (c' & <- & _).
  destruct (filename_keep c') eqn:E; [done | apply underscore_kept].
Qed.

(** X13.  [sanitize_filename] works character by character on the
    first 50 characters of the name: a word character or hyphen is
    kept, any other character becomes an underscore.  The result is
    as long as the name, up to 50, and holds only word characters
    and hyphens: no slash, no backslash, no dot, no colon, no space. *)
Theorem sanitize_filename_safe (name : pystr) :
  sanitize_filename name
  = map (fun c => if filename_keep c then c else 95%Z) (take 50 name)
  /\ length (sanitize_filename name) = min 50 (length name)
  /\ Forall (fun c => filename_keep c = true /\ c ∉ [47; 92; 46; 58; 32]%Z)
       (sanitize_filename name).
Proof.
  destruct (sanitize_filename_facts name) as [Hm Hk].
  split; [exact Hm |]. split.
  - rewrite Hm, length_map, length_take. lia.
  - eapply Forall_impl; [exact Hk |]. intros c Hc. split; [done |].
    intros Hin. repeat (apply elem_of_cons in Hin as [-> | Hin]; [done |]).
    by apply elem_of_nil in Hin.
Qed.

Lemma uint_str_inj (d d' : Decimal.uint) : uint_str d = uint_str d' -> d = d'.
Proof.
  revert d'. induction d as [|d IH|d IH|d IH|d IH|d IH|d IH|d IH|d IH|d IH|d IH];
    intros [|e|e|e|e|e|e|e|e|e|e]; cbn [uint_str]; intros H;
    try discriminate H; try reflexivity;
    injection H as H; f_equal; by apply IH.
Qed.

Lemma str_of_nat_inj (n m : nat) : str_of_nat n = str_of_nat m -> n = m.
Proof.
  unfold str_of_nat. intros H. apply uint_str_inj in H.
  by rewrite <- (DecimalNat.Unsigned.of_to n), <- (DecimalNat.Unsigned.of_to m), H.
Qed.

Lemma placeholder_filename_inj (topic : pystr) (i j : nat) :
  placeholder_filename topic i = placeholder_filename topic j -> i = j.
Proof.
  unfold placeholder_filename. intros H.
  apply app_inv_head, app_inv_head, app_inv_tail, str_of_nat_inj in H. lia.
Qed.

Lemma uint_str_digits (d : Decimal.uint) :
  Forall (fun c => (48 <= c <= 57)%Z) (uint_str d).
Proof. induction d; cbn [uint_str]; constructor; (lia || done). Qed.

(** X14.  The file names [fetch_placeholder_images] writes in one
    call are pairwise different, so no placeholder overwrites
    another; and none holds a slash or a backslash, so each file
    lands in the output directory itself. *)
Theorem placeholder_names_distinct (topic : pystr) (count : nat) :
  length (placeholder_filenames topic count) = count
  /\ NoDup (placeholder_filenames topic count)
  /\ Forall (fun f => (47%Z ∉ f) /\ (92%Z ∉ f)) (placeholder_filenames topic count).
Proof.
  unfold placeholder_filenames. split; [by rewrite length_map, length_seq |]. split.
  - change (NoDup (placeholder_filename topic <$> seq 0 count)).
    apply NoDup_fmap_2; [| apply NoDup_seq].
    intros i j. apply placeholder_filename_inj.
  - apply Forall_forall. intros f Hf.
    apply list_elem_of_In, in_map_iff in Hf as (i & <- & _).
    assert (Hall : Forall (fun c => c <> 47%Z /\ c <> 92%Z) (placeholder_filename topic i)).
    { unfold placeholder_filename. rewrite !Forall_app. repeat split.
      - destruct (sanitize_filename_facts topic) as [_ H].
        eapply Forall_impl; [exact H |]. intros c Hc.
        split; intros ->; done.
      - change (str "_") with [95%Z]. by repeat constructor.
      - eapply Forall_impl; [apply uint_str_digits |]. intros c Hc. cbv beta in Hc. lia.
      - change (str ".svg") with [46; 115; 118; 103]%Z. by repeat constructor. }
    rewrite Forall_forall in Hall.
    split; intros Hin; by destruct (Hall _ Hin).
Qed.

End FetchImagesFacts.
Lemma stat_grid (n i : Z) :
  (0 < n)%Z -> (0 <= i < n)%Z ->
  (1 <= StatCards.cols n <= 4)%Z
  /\ (0 <= StatCards.col n i < StatCards.cols n)%Z
  /\ (0 <= StatCards.row n i < StatCards.rows n)%Z
  /\ (i = StatCards.cols n * StatCards.row n i + StatCards.col n i)%Z.
Proof.
  intros Hn Hi. unfold StatCards.col, StatCards.row, StatCards.rows.
  set (c := StatCards.cols n).
  assert (Hc : (1 <= c <= 4)%Z) by (unfold c, StatCards.cols; lia).
  split; [exact Hc |]. split; [apply Z.mod_pos_bound; lia |]. split.
  - split; [apply Z.div_pos; lia |].
    replace (n + c - 1)%Z with ((n - 1) + 1 * c)%Z by lia.
    rewrite Z.div_add by lia.
    pose proof (Z.div_le_mono i (n - 1) c ltac:(lia) ltac:(lia)). lia.
  - apply Z.div_mod. lia.
Qed.

(** X15.  The grid of [create_stat_cards_svg]: every card lies inside
    the drawing, with the padding free on the left, on the right and
    at the bottom and the title band free on top; and two different
    cards are at least the gap apart, side by side or one above the
    other. *)
Theorem stat_cards_layout (n i j : Z) :
  (0 < n)%Z -> (0 <= i < n)%Z -> (0 <= j < n)%Z ->
  ((StatCards.padding <= StatCards.x n i)%Z
   /\ (StatCards.x n i + StatCards.card_width
       <= StatCards.width n - StatCards.padding)%Z
   /\ (StatCards.y_start <= StatCards.y n i)%Z
   /\ (StatCards.y n i + StatCards.card_height
       <= StatCards.height n - StatCards.padding)%Z)
  /\ (i <> j ->
      (StatCards.x n i + StatCards.card_width + StatCards.gap <= StatCards.x n j)%Z
      \/ (StatCards.x n j + StatCards.card_width + StatCards.gap <= StatCards.x n i)%Z
      \/ (StatCards.y n i + StatCards.card_height + StatCards.gap <= StatCards.y n j)%Z
      \/ (StatCards.y n j + StatCards.card_height + StatCards.gap <= StatCards.y n i)%Z).
Proof.
  intros Hn Hi Hj.
  destruct (stat_grid n i Hn Hi) as (Hc & Hci & Hri & Ei).
  destruct (stat_grid n j Hn Hj) as (_ & Hcj & Hrj & Ej).
  unfold StatCards.x, StatCards.y, StatCards.width, StatCards.height,
    StatCards.y_start, StatCards.padding, StatCards.card_width,
    StatCards.card_height, StatCards.gap.
  revert Hc Hci Hri Ei Hcj Hrj Ej.
  generalize (StatCards.cols n) (StatCards.rows n) (StatCards.col n i)
    (StatCards.row n i) (StatCards.col n j) (StatCards.row n j).
  intros c r ci ri cj rj Hc Hci Hri Ei Hcj Hrj Ej.
  split; [lia |]. intros Hne.
  destruct (Z.eq_dec ci cj) as [-> | Hcne]; [| lia].
  assert (ri <> rj) by (intros ->; lia). lia.
Qed.

Lemma stat_cards_layout_witness :
  ((StatCards.padding <= StatCards.x 6 5)%Z
   /\ (StatCards.x 6 5 + StatCards.card_width
       <= StatCards.width 6 - StatCards.padding)%Z
   /\ (StatCards.y_start <= StatCards.y 6 5)%Z
   /\ (StatCards.y 6 5 + StatCards.card_height
       <= StatCards.height 6 - StatCards.padding)%Z)
  /\ (5%Z <> 1%Z ->
      (StatCards.x 6 5 + StatCards.card_width + StatCards.gap <= StatCards.x 6 1)%Z
      \/ (StatCards.x 6 1 + StatCards.card_width + StatCards.gap <= StatCards.x 6 5)%Z
      \/ (StatCards.y 6 5 + StatCards.card_height + StatCards.gap <= StatCards.y 6 1)%Z
      \/ (StatCards.y 6 1 + StatCards.card_height + StatCards.gap <= StatCards.y 6 5)%Z).
Proof. apply (stat_cards_layout 6 5 1); lia. Defined.
Lemma add_key_spec (acc : list pystr) (k : pystr) :
  NoDup acc ->
  NoDup (add_key acc k)
  /\ forall x, x ∈ add_key acc k <-> x ∈ acc \/ (x = k /\ k <> str "name").
Proof.
  intros Hnd. unfold add_key. case_bool_decide as Hk.
  - destruct Hk as [Hk1 Hk2]. split.
    + apply NoDup_app. repeat split; [done | | apply NoDup_singleton].
      intros x Hx Hx'. apply list_elem_of_singleton in Hx'. by subst.
    + intros x. rewrite elem_of_app, list_elem_of_singleton. split.
      * intros [? | ->]; [by left | by right].
      * intros [? | [-> _]]; [by left | by right].
  - split; [done |]. intros x. split; [by left |].
    intros [Hx | [-> Hn]]; [done |].
    destruct (decide (k ∈ acc)) as [Hin | Hout]; [done |].
    exfalso. by apply Hk.
Qed.

Lemma add_keys_spec (keys acc : list pystr) :
  NoDup acc ->
  NoDup (fold_left add_key keys acc)
  /\ forall x, x ∈ fold_left add_key keys acc
       <-> x ∈ acc \/ (x ∈ keys /\ x <> str "name").
Proof.
  revert acc. induction keys as [|k keys IH]; intros acc Hnd; cbn [fold_left].
  - split; [done |]. intros x. split; [by left |].
    intros [? | [Hx _]]; [done |]. by apply elem_of_nil in Hx.
  - destruct (add_key_spec acc k Hnd) as [Hnd' Hin'].
    destruct (IH _ Hnd') as [Hnd'' Hin'']. split; [done |].
    intros x. rewrite Hin'', Hin', elem_of_cons. split.
    + intros [[? | [-> Hn]] | [Hx Hn]]; [by left | |].
      * right. split; [by left | done].
      * right. split; [by right | done].
    + intros [? | [[-> | Hx] Hn]]; [by left; left | |].
      * left. by right.
      * by right.
Qed.

Lemma all_keys_spec (items : list (list pystr)) (acc : list pystr) :
  NoDup acc ->
  NoDup (fold_left (fun acc keys => fold_left add_key keys acc) items acc)
  /\ forall x, x ∈ fold_left (fun acc keys => fold_left add_key keys acc) items acc
       <-> x ∈ acc \/ (x <> str "name" /\ exists keys, keys ∈ items /\ x ∈ keys).
Proof.
  revert acc. induction items as [|keys items IH]; intros acc Hnd; cbn [fold_left].
  - split; [done |]. intros x. split; [by left |].
    intros [? | (_ & keys & Hk & _)]; [done |]. by apply elem_of_nil in Hk.
  - destruct (add_keys_spec keys acc Hnd) as [Hnd' Hin'].
    destruct (IH _ Hnd') as [Hnd'' Hin'']. split; [done |].
    intros x. rewrite Hin'', Hin'. split.
    + intros [[? | [Hx Hn]] | (Hn & ks & Hks & Hx)]; [by left | |].
      * right. split; [done |]. exists keys. split; [by left | done].
      * right. split; [done |]. exists ks. split; [by right | done].
    + intros [? | (Hn & ks & Hks & Hx)]; [by left; left |].
      apply elem_of_cons in Hks as [-> | Hks].
      * left. by right.
      * right. split; [done |]. by exists ks.
Qed.

(** X16.  The feature rows of [create_comparison_table_svg]: the list
    of keys has no key twice, never holds [name], and holds exactly
    the other keys that some item has; the height of the drawing
    grows by 40 for each of them. *)
Theorem comparison_rows (items : list (list pystr)) :
  NoDup (all_keys items)
  /\ (forall k, k ∈ all_keys items
        <-> k <> str "name" /\ exists keys, keys ∈ items /\ k ∈ keys)
  /\ table_height items = (130 + 40 * Z.of_nat (length (all_keys items)))%Z.
Proof.
  destruct (all_keys_spec items [] (NoDup_nil_2 (A:=pystr))) as [Hnd Hin].
  split; [exact Hnd |]. split; [| unfold table_height; lia].
  intros k. unfold all_keys. rewrite Hin. split; [| by right].
  intros [Hk | ?]; [by apply elem_of_nil in Hk | done].
Qed.

(** * The table pass on short runs *)

Lemma table_step_coherent (st : table_state) (line : pystr) :
  table_coherent st -> table_coherent (table_step st line).
Proof.
  unfold table_coherent, table_step. destruct st as [r b t]. cbn. intros ->.
  destruct (is_table_row (strip line)); cbn.
  - by destruct b.
  - by destruct b.
Qed.

Lemma table_loop_coherent (lines : list pystr) (st : table_state) :
  table_coherent st -> table_coherent (fold_left table_step lines st).
Proof.
  revert st. induction lines as [|l lines IH]; intros st H; [done |].
  cbn [fold_left]. by apply IH, table_step_coherent.
Qed.

(** The lines already put out are carried along unchanged. *)
Lemma table_step_acc (acc b : list pystr) (t : bool) (l : pystr) :
  table_step (TableState acc b t) l
  = TableState (acc ++ t_result_lines (table_step (TableState [] b t) l))
      (table_buffer (table_step (TableState [] b t) l))
      (in_table (table_step (TableState [] b t) l)).
Proof.
  unfold table_step. cbn [t_result_lines table_buffer in_table].
  destruct (is_table_row (strip l)); cbn [t_result_lines table_buffer in_table].
  - by rewrite app_nil_r.
  - destruct t, b; by cbn [t_result_lines table_buffer in_table app].
Qed.

Lemma table_loop_acc (lines acc : list pystr) (b : list pystr) (t : bool) :
  fold_left table_step lines (TableState acc b t)
  = TableState
      (acc ++ t_result_lines (fold_left table_step lines (TableState [] b t)))
      (table_buffer (fold_left table_step lines (TableState [] b t)))
      (in_table (fold_left table_step lines (TableState [] b t))).
Proof.
  revert acc b t. induction lines as [|l lines IH]; intros acc b t.
  - cbn. by rewrite app_nil_r.
  - cbn [fold_left]. rewrite table_step_acc.
    destruct (table_step (TableState [] b t) l) as [r b' t'].
    cbn [t_result_lines table_buffer in_table].
    rewrite IH. rewrite (IH r). cbn [t_result_lines table_buffer in_table].
    by rewrite app_assoc.
Qed.

Lemma table_flush_acc (acc r b : list pystr) (t : bool) :
  table_flush (TableState (acc ++ r) b t) = acc ++ table_flush (TableState r b t).
Proof. unfold table_flush. cbn. destruct b; by rewrite <- ?app_assoc. Qed.

(** After lines of which the last is no row, the loop is outside a
    table and has put out what [table_lines] gives. *)
Lemma table_loop_outside (before : list pystr) :
  is_table_row (strip (List.last before [])) = false ->
  fold_left table_step before (TableState [] [] false)
  = TableState (table_lines before) [] false.
Proof.
  intros Hl. unfold table_lines.
  destruct before as [|x before] using rev_ind; [done |].
  rewrite last_last in Hl. rewrite fold_left_app. cbn [fold_left].
  pose proof (table_loop_coherent before (TableState [] [] false) eq_refl) as Hc.
  destruct (fold_left table_step before (TableState [] [] false)) as [r b t].
  unfold table_coherent in Hc. cbn in Hc. subst t.
  unfold table_step, table_flush. rewrite Hl. cbn.
  by destruct b.
Qed.

(** A first line that is no row is put out as it is, from outside a
    table. *)
Lemma table_lines_cons (next : pystr) (rest : list pystr) :
  is_table_row (strip next) = false ->
  table_lines (next :: rest) = next :: table_lines rest.
Proof.
  intros Hn. unfold table_lines. cbn [fold_left]. unfold table_step at 2.
  rewrite Hn. cbn [in_table table_buffer t_result_lines app].
  rewrite table_loop_acc.
  destruct (fold_left table_step rest (TableState [] [] false)) as [r b t].
  cbn [t_result_lines table_buffer in_table]. apply (table_flush_acc [next]).
Qed.

(** The loop and the flush on a run in a document: [run] is the trimmed
    rows of the run, met outside a table and followed by a line that
    is no row or by the end of the input. *)
Lemma table_run_lines (before after : list pystr) (l1 l2 : pystr) :
  is_table_row (strip (List.last before [])) = false ->
  is_table_row (strip (hd [] after)) = false ->
  is_table_row (strip l1) = true ->
  is_table_row (strip l2) = true ->
  table_lines (before ++ [l1] ++ after)
  = table_lines before ++ [strip l1] ++ table_lines after
  /\ table_lines (before ++ [l1; l2] ++ after)
     = table_lines before ++ [empty_table (strip l1)] ++ table_lines after.
Proof.
  intros Hb Ha H1 H2.
  assert (Hrun : forall run out,
            (forall st next, table_buffer st = [] ->
               is_table_row (strip next) = false ->
               fold_left table_step (run ++ [next]) st
               = TableState (t_result_lines st ++ [out] ++ [next]) [] false) ->
            (forall st, table_buffer st = [] ->
               table_flush (fold_left table_step run st) = t_result_lines st ++ [out]) ->
            table_lines (before ++ run ++ after)
            = table_lines before ++ [out] ++ table_lines after).
  { intros run out Hnext Hend. unfold table_lines at 1.
    rewrite fold_left_app, table_loop_outside by done.
    destruct after as [|next rest].
    - rewrite app_nil_r, Hend by done. done.
    - cbn [hd] in Ha. rewrite table_lines_cons by done.
      change (run ++ next :: rest) with (run ++ [next] ++ rest).
      rewrite app_assoc, fold_left_app, Hnext by done.
      cbn [t_result_lines]. rewrite table_loop_acc.
      unfold table_lines.
      destruct (fold_left table_step rest (TableState [] [] false)) as [r b t].
      cbn [t_result_lines table_buffer in_table].
      rewrite table_flush_acc, <- !app_assoc. done. }
  split.
  - apply (Hrun [l1]).
    + intros st next Hst Hn.
      by destruct (table_run_steps st l1 l2 next Hst H1 H2 Hn) as (A & _).
    + intros st Hst.
      assert (Hn : is_table_row (strip []) = false) by (vm_compute; reflexivity).
      by destruct (table_run_steps st l1 l2 [] Hst H1 H2 Hn) as (_ & A & _).
  - apply (Hrun [l1; l2]).
    + intros st next Hst Hn.
      by destruct (table_run_steps st l1 l2 next Hst H1 H2 Hn) as (_ & _ & A & _).
    + intros st Hst.
      assert (Hn : is_table_row (strip []) = false) by (vm_compute; reflexivity).
      by destruct (table_run_steps st l1 l2 [] Hst H1 H2 Hn) as (_ & _ & _ & A).
Qed.

(** C7.  The table pass on a document in which a run of exactly one
    row line, or of exactly two, stands between a line that is no row
    (or the start of the document) and a line that is no row (or the
    end of the document): the run of one line is put out as that line,
    trimmed, as text and not as a table; the run of two lines is put
    out as a table with the header cells of its first line and no
    body row.  The lines before and after the run are put out as the
    pass puts them out on their own, and the pass always returns. *)
Theorem table_flush_threshold (html : pystr) (before after : list pystr)
    (l1 l2 : pystr) :
  is_table_row (strip (List.last before [])) = false ->
  is_table_row (strip (hd [] after)) = false ->
  is_table_row (strip l1) = true ->
  is_table_row (strip l2) = true ->
  (split_chr nl html = before ++ [l1] ++ after ->
   tables html
   = join (str "\n") (table_lines before ++ [strip l1] ++ table_lines after))
  /\ (split_chr nl html = before ++ [l1; l2] ++ after ->
      tables html
      = join (str "\n")
          (table_lines before ++ [empty_table (strip l1)] ++ table_lines after)).
Proof.
  intros Hb Ha H1 H2.
  destruct (table_run_lines before after l1 l2 Hb Ha H1 H2) as [A B].
  split; intros Hs; unfold tables; rewrite Hs; fold (table_lines (before ++ [l1] ++ after));
    fold (table_lines (before ++ [l1; l2] ++ after)); by rewrite ?A, ?B.
Qed.

Lemma table_flush_threshold_witness :
  tables (str "| A | B |") = str "| A | B |"
  /\ tables (str "above\n  | A | B |\nbelow") = str "above\n| A | B |\nbelow"
  /\ tables (str "| A | B |\n|---|---|")
     = str "<table>\n<thead><tr>\n<th>A</th>\n<th>B</th>\n</tr></thead>\n<tbody>\n</tbody></table>"
  /\ tables (str "above\n| A | B |\n|---|---|\nbelow")
     = str "above\n<table>\n<thead><tr>\n<th>A</th>\n<th>B</th>\n</tr></thead>\n<tbody>\n</tbody></table>\nbelow".
Proof.
  split; [| split; [| split]].
  - destruct (table_flush_threshold (str "| A | B |") [] []
                (str "| A | B |") (str "|---|---|")) as [A _];
      [vm_compute; reflexivity .. |].
    rewrite A; vm_compute; reflexivity.
  - destruct (table_flush_threshold (str "above\n  | A | B |\nbelow")
                [str "above"] [str "below"]
                (str "  | A | B |") (str "|---|---|")) as [A _];
      [vm_compute; reflexivity .. |].
    rewrite A; vm_compute; reflexivity.
  - destruct (table_flush_threshold (str "| A | B |\n|---|---|") [] []
                (str "| A | B |") (str "|---|---|")) as [_ B];
      [vm_compute; reflexivity .. |].
    rewrite B; vm_compute; reflexivity.
  - destruct (table_flush_threshold (str "above\n| A | B |\n|---|---|\nbelow")
                [str "above"] [str "below"]
                (str "| A | B |") (str "|---|---|")) as [_ B];
      [vm_compute; reflexivity .. |].
    rewrite B; vm_compute; reflexivity.
Defined.

(** * The calls of the file system and their errors *)




(** A call that has returned hands its value to the rest. *)
Ltac returned :=
  repeat first
    [ progress change (@mret outcome _ _ ?x) with (Returns x)
    | progress (change (@mbind outcome _ _ _ ?k (Returns ?x)) with (k x);
                cbv beta iota) ].

Section Answering.
Context {U : Unicode} {F : FileSystem}.








End Answering.

Section CallsAsTheyAre.
Context {U : Unicode} {F : FileSystem} {C : Calls}.

Lemma data_uri_cases (p : pystr) :
  Raising.image_to_data_uri p
  = if embeddable_suffix (str_lower (path_suffix p)) then
      match call_read_bytes p with
      | Raises errno => Raises errno
      | Returns content =>
          Returns (data_uri_head (str_lower (path_suffix p)) ++ b64encode content)
      end
    else Returns [].
Proof.
  unfold Raising.image_to_data_uri, embeddable_suffix, data_uri_head. cbv zeta.
  generalize (str_lower (path_suffix p)). intros s.
  destruct (str_eqb s (str ".svg")); cbn [orb];
    [destruct (call_read_bytes p); reflexivity |].
  destruct (str_eqb s (str ".jpg")); cbn [orb];
    [destruct (call_read_bytes p); reflexivity |].
  destruct (str_eqb s (str ".jpeg")); cbn [orb];
    [destruct (call_read_bytes p); reflexivity |].
  destruct (str_eqb s (str ".png")); cbn [orb];
    [destruct (call_read_bytes p); reflexivity |].
  destruct (str_eqb s (str ".gif")); cbn [orb];
    [destruct (call_read_bytes p); reflexivity |].
  destruct (str_eqb s (str ".webp")); cbn [orb];
    [destruct (call_read_bytes p); reflexivity |].
  reflexivity.
Qed.

Lemma data_uri_head_cons (s : pystr) : exists c r, data_uri_head s = c :: r.
Proof.
  unfold data_uri_head.
  destruct (str_eqb s (str ".svg")); [vm_compute; eexists _, _; reflexivity |].
  destruct (_ || _); [vm_compute; eexists _, _; reflexivity |].
  destruct (str_eqb s (str ".png")); [vm_compute; eexists _, _; reflexivity |].
  destruct (str_eqb s (str ".gif")); vm_compute; eexists _, _; reflexivity.
Qed.

(** X6.  [replace_image] first asks whether the file exists.  When
    the test raises, [replace_image] raises that error.  When the
    test answers no, or answers yes for a file whose suffix, in lower
    case, is none of [.svg], [.jpg], [.jpeg], [.png], [.gif],
    [.webp], the placeholder with the alternative text is put out
    and the file is not read.  When the test answers yes and the
    suffix is one of the six, the file is read: the figure with the
    embedded bytes is put out, or the error of the reading is
    raised. *)
Theorem replace_image_cases (base_path : option pystr) (m : rmatch) :
  Raising.replace_image base_path m
  = match call_exists (resolve base_path (group 2 m)) with
    | Raises errno => Raises errno
    | Returns false => Returns (missing_image (group 1 m))
    | Returns true =>
        if embeddable_suffix
             (str_lower (path_suffix (resolve base_path (group 2 m))))
        then
          match call_read_bytes (resolve base_path (group 2 m)) with
          | Raises errno => Raises errno
          | Returns content =>
              Returns
                (str "<figure><img src='"
                 ++ (data_uri_head
                       (str_lower (path_suffix (resolve base_path (group 2 m))))
                     ++ b64encode content)
                 ++ str "' alt='" ++ group 1 m
                 ++ str "' style='max-width:100%; height:auto;'/><figcaption>"
                 ++ group 1 m ++ str "</figcaption></figure>")
          end
        else Returns (missing_image (group 1 m))
    end.
Proof.
  unfold Raising.replace_image, resolve, missing_image. cbv zeta.
  set (p := match base_path with Some b => path_join b (group 2 m) | None => group 2 m end).
  destruct (call_exists p) as [[|] | errno]; [| done | done].
  returned. rewrite data_uri_cases.
  destruct (embeddable_suffix _); [| done].
  destruct (call_read_bytes p) as [content | errno]; [| done].
  returned.
  destruct (data_uri_head_cons (str_lower (path_suffix p))) as (c & r & ->).
  reflexivity.
Qed.




End CallsAsTheyAre.


(** A file that is absent can also end the report: on a file system
    that refuses a name of 304 characters, the existence test raises
    for a descriptor and for an image reference with such a name; and
    a directory with an image suffix passes the test and raises when
    it is read.  Of two calls that raise, the first one in the order
    of the text, or of the list, decides the error.  A file that is
    simply absent gives the placeholder. *)
Lemma calls_can_raise :
  @Raising.images_section ascii_only (disk []) (refusing (disk []) [])
    [Descriptor long_name None]
  = Raises ENAMETOOLONG
  /\ @Raising.markdown_to_html ascii_only (disk []) (refusing (disk []) [])
       (str "![plot](" ++ long_name ++ str ")") None false
     = Raises ENAMETOOLONG
  /\ @Raising.markdown_to_html ascii_only (disk []) (refusing (disk []) [str "dir.png"])
       (str "![plot](dir.png)") None false
     = Raises EISDIR
  /\ @Raising.markdown_to_html ascii_only (disk []) (refusing (disk []) [str "dir.png"])
       (str "![plot](dir.png)\n\n![plot](" ++ long_name ++ str ")") None false
     = Raises EISDIR
  /\ @Raising.markdown_to_html ascii_only (disk []) (refusing (disk []) [str "dir.png"])
       (str "![plot](" ++ long_name ++ str ")\n\n![plot](dir.png)") None false
     = Raises ENAMETOOLONG
  /\ @Raising.diagrams_section ascii_only (disk []) (refusing (disk []) [str "dir.svg"])
       [Descriptor (str "dir.svg") None; Descriptor long_name None]
     = Raises EISDIR
  /\ @Raising.diagrams_section ascii_only (disk []) (refusing (disk []) [str "dir.svg"])
       [Descriptor long_name None; Descriptor (str "dir.svg") None]
     = Raises ENAMETOOLONG
  /\ @Raising.markdown_to_html ascii_only (disk []) (refusing (disk []) [])
       (str "![plot](gone.png)") None false
     = Returns (str "<figure class='missing-image'><div style='background:#f0f0f0; padding:40px; text-align:center; border:1px dashed #ccc;'>[Image: plot]</div></figure>").
Proof. vm_compute. repeat split; reflexivity. Qed.
